(** * LTM-Mirror: the request handler of [src/index.js]

    A shallow embedding of the Worker's [fetch] handler: a key-value mirror
    served under [/static/], with [GET] open to everybody and [PUT] and
    [DELETE] guarded by a pre-shared key carried in the
    [X-FASTF1-LIVETIMING-MIRROR-AUTH] header.

    The handler is straight-line code that calls into the platform
    ([TextEncoder], [crypto.subtle.timingSafeEqual], the R2 bucket binding).
    Those calls are effects: they are threaded through a small state and
    exception monad whose state holds the bucket's content and the list of
    platform calls made so far. *)

From Stdlib Require Import ZArith Lia List Ascii String Strings.Byte.
From Stdlib Require Import Decimal DecimalString.
From stdpp Require Import base option list strings gmap.

Local Open Scope string_scope.
Local Open Scope Z_scope.

(** ** JavaScript strings and values *)

Module JS.

(** A JavaScript string whose content matters code unit by code unit (the
    credential and the secret) is the list of its UTF-16 code units, each in
    [0, 65535]. Paths, methods, keys and header names are ASCII and are kept
    as [string]. *)
Definition ustring := list Z.

(** [s.length]: the number of UTF-16 code units. *)
Definition ulength (s : ustring) : nat := List.length s.

(** [String.prototype.startsWith(search)] with no position. *)
Definition startsWith (s search : string) : bool := String.prefix search s.

(** [String.prototype.slice(start)] for a non-negative [start]. *)
Definition slice (start : nat) (s : string) : string :=
  String.substring start (String.length s - start) s.

(** [String.prototype.endsWith(search)]: the search string is compared with
    the substring that starts at [length s - length search], and a negative
    start gives [false]. *)
Definition endsWith (s search : string) : bool :=
  let len := String.length s in
  let searchLength := String.length search in
  if (searchLength <=? len)%nat
  then String.eqb (String.substring (len - searchLength) searchLength s) search
  else false.

(** [Array.prototype.includes] on an array of strings (strict equality). *)
Definition includes (arr : list string) (x : string) : bool :=
  existsb (String.eqb x) arr.

(** [Array.prototype.join(sep)]. *)
Definition join (sep : string) (arr : list string) : string :=
  String.concat sep arr.

(** The values a configuration variable can hold: nothing, a Number or a
    String. [Num n] is an integer-valued Number. *)
Inductive value :=
| Undefined
| Num (n : Z)
| Str (s : string).

(** [Number.isSafeInteger]: in this range every integer is a Number and
    [Number::toString] prints its decimal digits. *)
Definition safe_integer (n : Z) : Prop := - (2 ^ 53 - 1) <= n <= 2 ^ 53 - 1.

(** ToBoolean. *)
Definition truthy (v : value) : bool :=
  match v with
  | Undefined => false
  | Num n => negb (n =? 0)
  | Str s => negb (String.eqb s "")
  end.

(** [a || b]: the left operand unless it is falsy. *)
Definition or_else (a b : value) : value := if truthy a then a else b.

(** The decimal digits of an integer, with a minus sign when negative. *)
Definition decimal (n : Z) : string := NilZero.string_of_int (Z.to_int n).

(** ToString. *)
Definition ToString (v : value) : string :=
  match v with
  | Undefined => "undefined"
  | Num n => decimal n
  | Str s => s
  end.

(** [String.prototype.concat(v)]. *)
Definition concat (s : string) (v : value) : string := String.append s (ToString v).

(** ASCII lower-casing of a header name, as [Headers] does. *)
Definition lower_ascii (c : ascii) : ascii :=
  let n := nat_of_ascii c in
  if ((65 <=? n) && (n <=? 90))%nat then ascii_of_nat (n + 32) else c.

Fixpoint lower (s : string) : string :=
  match s with
  | EmptyString => EmptyString
  | String c s' => String (lower_ascii c) (lower s')
  end.

End JS.

(** ** Platform primitives *)

Module Platform.

Definition is_high_surrogate (u : Z) : bool := (0xD800 <=? u) && (u <=? 0xDBFF).
Definition is_low_surrogate (u : Z) : bool := (0xDC00 <=? u) && (u <=? 0xDFFF).

(** The UTF-8 bytes of one scalar value. *)
Definition utf8_bytes (c : Z) : list Z :=
  if c <? 0x80 then [c]
  else if c <? 0x800 then
    [Z.lor 0xC0 (Z.shiftr c 6); Z.lor 0x80 (Z.land c 0x3F)]
  else if c <? 0x10000 then
    [Z.lor 0xE0 (Z.shiftr c 12);
     Z.lor 0x80 (Z.land (Z.shiftr c 6) 0x3F);
     Z.lor 0x80 (Z.land c 0x3F)]
  else
    [Z.lor 0xF0 (Z.shiftr c 18);
     Z.lor 0x80 (Z.land (Z.shiftr c 12) 0x3F);
     Z.lor 0x80 (Z.land (Z.shiftr c 6) 0x3F);
     Z.lor 0x80 (Z.land c 0x3F)].

(** Modelled from the spec: [TextEncoder.prototype.encode] is a primitive of
    the runtime, not code of the repository; the spec names it as the
    byte-encoding (UTF-8) of the credential. A surrogate pair is one scalar
    value, a lone surrogate is replaced by U+FFFD. *)
Fixpoint utf8_encode (s : JS.ustring) : list Z :=
  match s with
  | [] => []
  | u :: rest =>
      if is_high_surrogate u then
        match rest with
        | l :: rest' =>
            if is_low_surrogate l
            then utf8_bytes (0x10000 + Z.shiftl (u - 0xD800) 10 + (l - 0xDC00))
                   ++ utf8_encode rest'
            else utf8_bytes 0xFFFD ++ utf8_encode rest
        | [] => utf8_bytes 0xFFFD
        end
      else if is_low_surrogate u then utf8_bytes 0xFFFD ++ utf8_encode rest
      else utf8_bytes u ++ utf8_encode rest
  end.

(** [byteLength] of a [Uint8Array]. *)
Definition byteLength (a : list Z) : nat := List.length a.

(** The OR of the pairwise XORs: zero exactly when no pair differs. Every
    pair is folded in, whatever the earlier pairs were. *)
Definition xor_fold (a b : list Z) : Z :=
  fold_left Z.lor (zip_with Z.lxor a b) 0.

(** Modelled from the spec: [crypto.subtle.timingSafeEqual] is a primitive
    of the runtime; the spec describes it as the byte-wise comparison of two
    encodings of equal length. It raises a [TypeError] ([None]) on buffers
    of different lengths. *)
Definition timing_safe_equal (a b : list Z) : option bool :=
  if (byteLength a =? byteLength b)%nat
  then Some (xor_fold a b =? 0)
  else None.

End Platform.

(** ** The Worker: effects, the bucket, requests and responses *)

Module Worker.

Import JS Platform.

(** *** The R2 bucket *)

(** Modelled from the spec: the HTTP metadata the blob store keeps with an
    object (its type is declared by the runtime, not by the repository). *)
Record R2HTTPMetadata := {
  contentType : option string;
  contentLanguage : option string;
  contentDisposition : option string;
  contentEncoding : option string;
  cacheControl : option string;
  cacheExpiry : option string
}.

(** [{contentType: v}]. *)
Definition only_contentType (v : string) : R2HTTPMetadata :=
  {| contentType := Some v; contentLanguage := None; contentDisposition := None;
     contentEncoding := None; cacheControl := None; cacheExpiry := None |}.

(** Modelled from the spec: a stored object is an opaque byte payload with
    its HTTP metadata and an entity tag. *)
Record R2Object := {
  object_body : list byte;
  httpMetadata : R2HTTPMetadata;
  httpEtag : string
}.

(** The binding [env.LIVETIMING_BUCKET]. The entity tag is derived from the
    content by the store; how is the store's business. *)
Record R2Bucket := { etag_of : list byte -> string }.

(** *** Effects *)

(** The calls the handler makes into the platform, in the order made. *)
Inductive Call :=
| Call_encode (s : ustring)
| Call_timingSafeEqual (a b : list Z)
| Call_put (key : string) (value : list byte) (md : R2HTTPMetadata)
| Call_get (key : string)
| Call_delete (key : string).

Definition is_bucket_call (c : Call) : bool :=
  match c with
  | Call_put _ _ _ | Call_get _ | Call_delete _ => true
  | _ => false
  end.

Definition is_comparison (c : Call) : bool :=
  match c with
  | Call_timingSafeEqual _ _ => true
  | _ => false
  end.

Record World := {
  bucket : gmap string R2Object;
  calls : list Call
}.

Inductive Exception := TypeError.

Inductive Completion (A : Type) :=
| Normal (a : A)
| Throw (e : Exception).
Arguments Normal {A} a.
Arguments Throw {A} e.

Definition Eff (A : Type) : Type := World -> Completion A * World.

Definition ret {A} (a : A) : Eff A := fun w => (Normal a, w).

Definition throw {A} (e : Exception) : Eff A := fun w => (Throw e, w).

Definition bind {A B} (m : Eff A) (k : A -> Eff B) : Eff B :=
  fun w =>
    match m w with
    | (Normal a, w') => k a w'
    | (Throw e, w') => (Throw e, w')
    end.

Notation "x <- m ;; k" := (bind m (fun x => k))
  (at level 100, m at next level, right associativity).
Notation "m ;;; k" := (bind m (fun _ => k))
  (at level 100, right associativity).

Definition record (c : Call) : Eff unit :=
  fun w => (Normal tt, {| bucket := bucket w; calls := calls w ++ [c] |}).

(** [encoder.encode(s)]. *)
Definition encode (s : ustring) : Eff (list Z) :=
  record (Call_encode s) ;;; ret (utf8_encode s).

(** [crypto.subtle.timingSafeEqual(a, b)]. *)
Definition timingSafeEqual (a b : list Z) : Eff bool :=
  record (Call_timingSafeEqual a b) ;;;
  match timing_safe_equal a b with
  | Some r => ret r
  | None => throw TypeError
  end.

(** Modelled from the spec: [put(key, bytes, metadata)] of the blob store;
    the write replaces whatever the key held. A failure of the store itself
    (which the handler would let propagate) is not modelled, here and in
    [bucket_get] and [bucket_delete]: what is proved of a run is proved of a
    run in which the store answers. *)
Definition bucket_put (b : R2Bucket) (key : string) (value : list byte)
    (md : R2HTTPMetadata) : Eff unit :=
  fun w =>
    (Normal tt,
     {| bucket := <[key := {| object_body := value; httpMetadata := md;
                              httpEtag := etag_of b value |}]> (bucket w);
        calls := calls w ++ [Call_put key value md] |}).

(** Modelled from the spec: [get(key) -> object|null] of the blob store. *)
Definition bucket_get (b : R2Bucket) (key : string) : Eff (option R2Object) :=
  fun w =>
    (Normal (bucket w !! key),
     {| bucket := bucket w; calls := calls w ++ [Call_get key] |}).

(** Modelled from the spec: [delete(key)] of the blob store; a key that is
    not there is not an error. *)
Definition bucket_delete (b : R2Bucket) (key : string) : Eff unit :=
  fun w =>
    (Normal tt,
     {| bucket := delete key (bucket w); calls := calls w ++ [Call_delete key] |}).

(** *** Headers, requests, responses *)

(** A [Headers] object: names are case-insensitive, kept in lower case. The
    value is kept as given: the runtime's trimming of outer whitespace and its
    refusal of NUL, CR and LF are not modelled. *)
Definition Headers_set {V} (name : string) (v : V) (h : gmap string V) : gmap string V :=
  <[lower name := v]> h.

Definition Headers_get {V} (name : string) (h : gmap string V) : option V :=
  h !! lower name.

Definition set_if_present (name : string) (o : option string)
    (h : gmap string string) : gmap string string :=
  match o with
  | Some v => Headers_set name v h
  | None => h
  end.

(** Modelled from the spec: [object.writeHttpMetadata(headers)] copies the
    stored HTTP metadata into the headers. *)
Definition writeHttpMetadata (o : R2Object) (h : gmap string string) : gmap string string :=
  let md := httpMetadata o in
  set_if_present "expires" (cacheExpiry md)
    (set_if_present "cache-control" (cacheControl md)
      (set_if_present "content-encoding" (contentEncoding md)
        (set_if_present "content-disposition" (contentDisposition md)
          (set_if_present "content-language" (contentLanguage md)
            (set_if_present "content-type" (contentType md) h))))).

(** The request as the handler reads it: [request.method],
    [new URL(request.url).pathname], [request.headers], [request.body]. *)
Record Request := {
  method : string;
  pathname : string;
  request_headers : gmap string ustring;
  request_body : list byte
}.

Inductive BodyInit :=
| BodyString (s : string)
| BodyStream (bytes : list byte).

Record Response := {
  status : Z;
  response_body : BodyInit;
  response_headers : gmap string string
}.

(** [new Response(body, {status, headers})]: a string body brings its
    content type unless the headers already have one. *)
Definition new_Response (body : BodyInit) (st : Z) (h : gmap string string) : Response :=
  {| status := st;
     response_body := body;
     response_headers :=
       match body with
       | BodyString _ =>
           match Headers_get "Content-Type" h with
           | Some _ => h
           | None => Headers_set "Content-Type" "text/plain;charset=UTF-8" h
           end
       | BodyStream _ => h
       end |}.

Record Env := {
  MAX_CACHE_AGE : value;
  AUTH_KEY_SECRET : option ustring;
  LIVETIMING_BUCKET : R2Bucket
}.

(** *** The handler *)

Definition supportedMethods : list string := ["GET"; "PUT"; "DELETE"].
Definition authenticatedMethods : list string := ["PUT"; "DELETE"].
Definition PRESHARED_AUTH_HEADER_KEY : string := "X-FASTF1-LIVETIMING-MIRROR-AUTH".

(** [request.headers.get(PRESHARED_AUTH_HEADER_KEY) || ""]. *)
Definition authToken (request : Request) : ustring :=
  match Headers_get PRESHARED_AUTH_HEADER_KEY (request_headers request) with
  | Some (u :: v) => u :: v
  | Some [] => []
  | None => []
  end.

(** Lines 34 to 46: the value of [isAuthenticated]. Reading [.length] of a
    secret that is [undefined] raises a [TypeError]. *)
Definition isAuthenticated (authToken : ustring) (AUTH_KEY_SECRET : option ustring)
    : Eff bool :=
  match AUTH_KEY_SECRET with
  | None => throw TypeError
  | Some secret =>
      if (ulength authToken =? ulength secret)%nat then
        a <- encode authToken ;;
        b <- encode secret ;;
        if (byteLength a =? byteLength b)%nat
        then timingSafeEqual a b
        else ret false
      else ret false
  end.

(** Lines 69 to 74. *)
Definition contentTypeValue (key : string) : string :=
  if endsWith key ".jsonStream" then "application/octet-stream"
  else if endsWith key ".json" then "application/json"
  else "".

Definition MethodNotAllowed : Response :=
  new_Response (BodyString "Method Not Allowed") 405
    (Headers_set "Allow" (join ", " supportedMethods) ∅).

Definition fetch (request : Request) (env : Env) : Eff Response :=
  if negb (startsWith (pathname request) "/static/") then
    ret (new_Response (BodyString "Bad Request") 400 ∅)
  else
    let key := slice 8 (pathname request) in
    let CACHE_MAX_AGE := or_else (MAX_CACHE_AGE env) (Num 3600) in
    authenticated <- isAuthenticated (authToken request) (AUTH_KEY_SECRET env) ;;
    if negb (includes supportedMethods (method request)) then
      ret MethodNotAllowed
    else if includes authenticatedMethods (method request) && negb authenticated then
      ret (new_Response (BodyString "Unauthorized") 401 ∅)
    else if String.eqb (method request) "PUT" then
      bucket_put (LIVETIMING_BUCKET env) key (request_body request)
        (only_contentType (contentTypeValue key)) ;;;
      ret (new_Response (BodyString ("Put " +:+ key +:+ " successfully!")) 200 ∅)
    else if String.eqb (method request) "GET" then
      if String.eqb key "" then
        ret (new_Response (BodyString "Status OK") 200 ∅)
      else
        object <- bucket_get (LIVETIMING_BUCKET env) key ;;
        match object with
        | None => ret (new_Response (BodyString "Object Not Found") 404 ∅)
        | Some object =>
            let headers := writeHttpMetadata object ∅ in
            let headers := Headers_set "etag" (httpEtag object) headers in
            let headers :=
              Headers_set "Cache-Control" (concat "public, max-age=" CACHE_MAX_AGE) headers in
            ret (new_Response (BodyStream (object_body object)) 200 headers)
        end
    else if String.eqb (method request) "DELETE" then
      bucket_delete (LIVETIMING_BUCKET env) key ;;;
      ret (new_Response (BodyString "Deleted!") 200 ∅)
    else
      ret MethodNotAllowed.

(** The world after some more calls that leave the bucket alone. *)
Definition after (w : World) (cs : list Call) : World :=
  {| bucket := bucket w; calls := calls w ++ cs |}.

(** What the check answers (the secret being configured). *)
Definition authenticates (token secret : ustring) : bool :=
  (ulength token =? ulength secret)%nat
  && (byteLength (utf8_encode token) =? byteLength (utf8_encode secret))%nat
  && bool_decide (utf8_encode token = utf8_encode secret).

(** The platform calls the check makes. *)
Definition auth_calls (token secret : ustring) : list Call :=
  if (ulength token =? ulength secret)%nat then
    Call_encode token :: Call_encode secret ::
      (if (byteLength (utf8_encode token) =? byteLength (utf8_encode secret))%nat
       then [Call_timingSafeEqual (utf8_encode token) (utf8_encode secret)]
       else [])
  else [].

(** The calls made by a run that started in [w] and ended in [w']. *)
Definition new_calls (w w' : World) : list Call :=
  drop (List.length (calls w)) (calls w').

(** Whether the check, run on a credential and a secret, makes the byte-wise
    comparison. *)
Definition compared (token secret : ustring) (w : World) : bool :=
  existsb is_comparison
    (new_calls w (snd (isAuthenticated token (Some secret) w))).

(** The gate in the spec's words: the byte-wise comparison is made exactly when
    the encoded byte lengths of the two strings are equal. *)
Definition gated_by_byte_length_only (token secret : ustring) (w : World) : Prop :=
  compared token secret w = true
  <-> byteLength (utf8_encode token) = byteLength (utf8_encode secret).

(** The cache header in the spec's words: the configured integer, and 3600
    when the option is absent. *)
Definition cache_control_of_option (configured : option Z) : string :=
  "public, max-age=" +:+ decimal (default 3600 configured).

(** How an optional integer option shows up in [env]. *)
Definition option_value (configured : option Z) : value :=
  match configured with
  | Some n => Num n
  | None => Undefined
  end.

End Worker.

(** ** Concrete requests and environments *)

Module Samples.

Import JS Platform Worker.

Definition r2 : R2Bucket := {| etag_of := fun _ => "etag-0" |}.

Definition empty_world : World := {| bucket := ∅; calls := [] |}.

(** The secret ["ab"]. *)
Definition secret_ab : ustring := [97; 98].

(** The one-character credential ["é"] (U+00E9): two bytes in UTF-8. *)
Definition token_e_acute : ustring := [233].

Definition env_with (age : value) (secret : option ustring) : Env :=
  {| MAX_CACHE_AGE := age; AUTH_KEY_SECRET := secret; LIVETIMING_BUCKET := r2 |}.

Definition request_of (m path : string) (token : option ustring) (payload : list byte)
    : Request :=
  {| method := m;
     pathname := path;
     request_headers :=
       match token with
       | Some t => Headers_set PRESHARED_AUTH_HEADER_KEY t ∅
       | None => ∅
       end;
     request_body := payload |}.

Definition stored (payload : list byte) : R2Object :=
  {| object_body := payload;
     httpMetadata := only_contentType "application/json";
     httpEtag := etag_of r2 payload |}.

Definition world_with (key : string) (payload : list byte) : World :=
  {| bucket := {[ key := stored payload ]}; calls := [] |}.

End Samples.

(** ** UTF-16 strings as sequences of scalar values

    The definitions below are not part of the handler: they describe what
    [utf8_encode] sees in a string, and are used to state and prove what the
    authentication check accepts. *)

Module Unicode.

Import JS Platform.

(** Every code unit is a 16-bit value. *)
Definition in_range (s : ustring) : Prop := Forall (fun u => 0 <= u < 65536) s.

(** A string of 16-bit code units in which every surrogate is half of a
    pair (a well-formed UTF-16 string). *)
Fixpoint well_formed (s : ustring) : bool :=
  match s with
  | [] => true
  | u :: rest =>
      (0 <=? u) && (u <? 65536)
      && if is_high_surrogate u then
           match rest with
           | l :: rest' => is_low_surrogate l && well_formed rest'
           | [] => false
           end
         else negb (is_low_surrogate u) && well_formed rest
  end.

(** The scalar values [utf8_encode] encodes, one after the other: it follows
    the same case analysis, so that [utf8_encode s] is the concatenation of
    the [utf8_bytes] of [scalars s]. *)
Fixpoint scalars (s : ustring) : list Z :=
  match s with
  | [] => []
  | u :: rest =>
      if is_high_surrogate u then
        match rest with
        | l :: rest' =>
            if is_low_surrogate l
            then (0x10000 + Z.shiftl (u - 0xD800) 10 + (l - 0xDC00)) :: scalars rest'
            else 0xFFFD :: scalars rest
        | [] => [0xFFFD]
        end
      else if is_low_surrogate u then 0xFFFD :: scalars rest
      else u :: scalars rest
  end.

Definition scalar_value (c : Z) : Prop := 0 <= c < 0x110000.

(** The number of UTF-16 code units a scalar value takes. *)
Definition width (c : Z) : nat := if c <? 0x10000 then 1%nat else 2%nat.

Fixpoint units_of (cs : list Z) : nat :=
  match cs with
  | [] => 0%nat
  | c :: cs' => (width c + units_of cs')%nat
  end.

(** The UTF-16 code units of a scalar value. *)
Definition utf16_units (c : Z) : ustring :=
  if c <? 0x10000 then [c]
  else [0xD800 + (c - 0x10000) / 1024; 0xDC00 + (c - 0x10000) mod 1024].

(** [utf8_bytes] without bit operations. *)
Definition utf8_arith (c : Z) : list Z :=
  if c <? 0x80 then [c]
  else if c <? 0x800 then [192 + c / 64; 128 + c mod 64]
  else if c <? 0x10000 then [224 + c / 4096; 128 + (c / 64) mod 64; 128 + c mod 64]
  else [240 + c / 262144; 128 + (c / 4096) mod 64; 128 + (c / 64) mod 64; 128 + c mod 64].

End Unicode.

(** ** What a run shows of itself *)

Module Observed.

Import JS Platform Worker.

(** The key a call to the bucket is about. *)
Definition call_key (c : Call) : option string :=
  match c with
  | Call_put key _ _ | Call_get key | Call_delete key => Some key
  | _ => None
  end.

(** The calls to the bucket among the calls of a run from [w] to [w']. *)
Definition bucket_calls (w w' : World) : list Call :=
  List.filter is_bucket_call (new_calls w w').

(** A call that cannot make the platform raise for a length mismatch:
    [timingSafeEqual] on two buffers of one byte length, or any other call. *)
Definition on_equal_lengths (c : Call) : Prop :=
  match c with
  | Call_timingSafeEqual a b => byteLength a = byteLength b
  | _ => True
  end.

(** ASCII decimal digits. *)
Definition is_digit (c : ascii) : bool :=
  let n := nat_of_ascii c in ((48 <=? n) && (n <=? 57))%nat.

Fixpoint all_digits (s : string) : bool :=
  match s with
  | EmptyString => true
  | String c s' => is_digit c && all_digits s'
  end.

(** The response of a run, if it ended in one. *)
Definition response_of (run : Completion Response * World) : option Response :=
  match fst run with
  | Normal r => Some r
  | Throw _ => None
  end.

End Observed.

(** ** Facts about the string operations *)

Module StringFacts.

Import JS.

Lemma substring_all (s : string) : String.substring 0 (String.length s) s = s.
Proof.
  induction s as [|c s IH]; simpl; [reflexivity|].
  now rewrite IH.
Qed.

(** Dropping the eight characters of ["/static/"] leaves the key. *)
Lemma slice_static (key : string) : slice 8 ("/static/" +:+ key) = key.
Proof.
  unfold slice. simpl. rewrite Nat.sub_0_r.
  apply substring_all.
Qed.

Lemma startsWith_static (key : string) : startsWith ("/static/" +:+ key) "/static/" = true.
Proof. unfold startsWith. simpl. now destruct key. Qed.

(** The last character of a string that ends with [search]. *)
Lemma endsWith_last (s search : string) (n : nat) :
  endsWith s search = true ->
  String.length search = S n ->
  String.get (String.length s - 1) s = String.get n search.
Proof.
  unfold endsWith. intros H Hn. rewrite Hn in H.
  destruct (Nat.leb_spec (S n) (String.length s)) as [Hle|]; [|discriminate].
  apply String.eqb_eq in H. rewrite <- H.
  rewrite String.substring_correct1 by lia.
  f_equal. lia.
Qed.

(** A key has one last character: the two suffixes exclude each other. *)
Lemma endsWith_json_not_jsonStream (key : string) :
  endsWith key ".json" = true -> endsWith key ".jsonStream" = false.
Proof.
  intros Hj. destruct (endsWith key ".jsonStream") eqn:Hs; [|reflexivity].
  apply (endsWith_last _ _ 4) in Hj; [|reflexivity].
  apply (endsWith_last _ _ 10) in Hs; [|reflexivity].
  rewrite Hj in Hs. discriminate.
Qed.

Lemma length_app (p q : string) :
  String.length (p +:+ q) = (String.length p + String.length q)%nat.
Proof. induction p as [|c p IH]; simpl; [reflexivity | now rewrite IH]. Qed.

Lemma endsWith_app (p search : string) : endsWith (p +:+ search) search = true.
Proof.
  unfold endsWith. rewrite length_app.
  destruct (Nat.leb_spec (String.length search) (String.length p + String.length search));
    [|lia].
  replace (String.length p + String.length search - String.length search)%nat
    with (String.length p) by lia.
  apply String.eqb_eq. clear.
  induction p as [|c p IH]; simpl; [apply substring_all | exact IH].
Qed.

End StringFacts.

(** ** Facts about the platform primitives *)

Module PlatformFacts.

Import Platform.

Example utf8_encode_two_bytes : utf8_encode [233] = [195; 169].
Proof. reflexivity. Qed.

Example utf8_encode_surrogate_pair : utf8_encode [0xD83D; 0xDE00] = [240; 159; 152; 128].
Proof. reflexivity. Qed.

Example utf8_encode_lone_surrogate : utf8_encode [0xD800; 97] = [239; 191; 189; 97].
Proof. reflexivity. Qed.

Example timing_safe_equal_last_byte : timing_safe_equal [1; 2; 3] [1; 2; 4] = Some false.
Proof. reflexivity. Qed.

Example timing_safe_equal_lengths : timing_safe_equal [1; 2] [1; 2; 3] = None.
Proof. reflexivity. Qed.

Lemma fold_lor_zero (l : list Z) (acc : Z) :
  fold_left Z.lor l acc = 0 <-> acc = 0 /\ Forall (fun x => x = 0) l.
Proof.
  revert acc. induction l as [|x l IH]; intros acc; simpl.
  - split; [intros ->; split; [reflexivity|constructor] | intros [-> _]; reflexivity].
  - rewrite IH, Z.lor_eq_0_iff. split.
    + intros [[-> ->] Hl]. split; [reflexivity|]. constructor; [reflexivity|exact Hl].
    + intros [-> Hl]. inversion Hl; subst. repeat split; assumption.
Qed.

Lemma zip_xor_zero (a b : list Z) :
  List.length a = List.length b ->
  Forall (fun x => x = 0) (zip_with Z.lxor a b) <-> a = b.
Proof.
  revert b. induction a as [|x a IH]; intros [|y b] Hlen; simpl in *; try discriminate.
  - split; [reflexivity | constructor].
  - injection Hlen as Hlen. split.
    + intros H. inversion H as [|? ? Hxy Hrest]; subst.
      apply Z.lxor_eq in Hxy. apply IH in Hrest; [|exact Hlen]. congruence.
    + intros [= -> ->]. constructor; [apply Z.lxor_nilpotent|].
      apply IH; [exact Hlen | reflexivity].
Qed.

(** On buffers of one length the primitive answers whether they are equal. *)
Lemma timing_safe_equal_spec (a b : list Z) :
  byteLength a = byteLength b ->
  timing_safe_equal a b = Some (bool_decide (a = b)).
Proof.
  intros Hlen. unfold timing_safe_equal. rewrite Hlen, Nat.eqb_refl. f_equal.
  unfold xor_fold.
  destruct (Z.eqb_spec (fold_left Z.lor (zip_with Z.lxor a b) 0) 0) as [H|H].
  - apply fold_lor_zero in H as [_ H]. apply zip_xor_zero in H; [|exact Hlen].
    symmetry. apply bool_decide_eq_true. exact H.
  - symmetry. apply bool_decide_eq_false. intros ->. apply H.
    apply fold_lor_zero. split; [reflexivity|]. now apply zip_xor_zero.
Qed.

Lemma timing_safe_equal_refl (a : list Z) : timing_safe_equal a a = Some true.
Proof.
  rewrite timing_safe_equal_spec by reflexivity.
  f_equal. apply bool_decide_eq_true. reflexivity.
Qed.

End PlatformFacts.

(** ** The authentication check *)

Module Auth.

Import JS Platform Worker PlatformFacts.

Lemma after_nil (w : World) : after w [] = w.
Proof. destruct w as [b cs]. unfold after. simpl. now rewrite app_nil_r. Qed.

Lemma after_after (w : World) (cs ds : list Call) :
  after (after w cs) ds = after w (cs ++ ds).
Proof. unfold after. simpl. now rewrite app_assoc. Qed.

Lemma isAuthenticated_run (token secret : ustring) (w : World) :
  isAuthenticated token (Some secret) w
  = (Normal (authenticates token secret), after w (auth_calls token secret)).
Proof.
  unfold isAuthenticated, authenticates, auth_calls.
  destruct (ulength token =? ulength secret)%nat; simpl.
  - unfold bind, encode, timingSafeEqual, record, ret, bind, after. simpl.
    destruct (Nat.eqb_spec (byteLength (utf8_encode token)) (byteLength (utf8_encode secret)))
      as [Hlen|Hlen]; simpl.
    + rewrite (timing_safe_equal_spec _ _ Hlen). simpl.
      now rewrite <- !app_assoc.
    + now rewrite <- !app_assoc.
  - unfold ret. now rewrite after_nil.
Qed.

Lemma auth_calls_not_bucket (token secret : ustring) :
  forallb (fun c => negb (is_bucket_call c)) (auth_calls token secret) = true.
Proof.
  unfold auth_calls.
  destruct (ulength token =? ulength secret)%nat; [|reflexivity].
  now destruct (byteLength (utf8_encode token) =? byteLength (utf8_encode secret))%nat.
Qed.

Lemma authenticates_refl (secret : ustring) : authenticates secret secret = true.
Proof.
  unfold authenticates. rewrite !Nat.eqb_refl. simpl.
  apply bool_decide_eq_true. reflexivity.
Qed.

(** A credential whose bytes are not the secret's does not pass. *)
Lemma authenticates_bytes (token secret : ustring) :
  authenticates token secret = true -> utf8_encode token = utf8_encode secret.
Proof.
  unfold authenticates. intros H.
  apply andb_prop in H as [_ H]. now apply bool_decide_eq_true in H.
Qed.

Lemma authenticates_length (token secret : ustring) :
  authenticates token secret = true -> ulength token = ulength secret.
Proof.
  unfold authenticates. intros H.
  apply andb_prop in H as [H _]. apply andb_prop in H as [H _].
  now apply Nat.eqb_eq.
Qed.


End Auth.

(** ** The handler, branch by branch *)

Module HandlerFacts.

Import JS Platform Worker Auth.

Ltac enter_handler Hpath Hsecret :=
  unfold fetch; rewrite Hpath; cbv zeta;
  change (negb true) with false; cbv iota;
  unfold bind at 1; cbv beta; rewrite Hsecret, isAuthenticated_run.

Lemma fetch_bad_path (request : Request) (env : Env) (w : World) :
  startsWith (pathname request) "/static/" = false ->
  fetch request env w = (Normal (new_Response (BodyString "Bad Request") 400 ∅), w).
Proof. intros Hpath. unfold fetch. now rewrite Hpath. Qed.

Lemma fetch_no_secret (request : Request) (env : Env) (w : World) :
  startsWith (pathname request) "/static/" = true ->
  AUTH_KEY_SECRET env = None ->
  fetch request env w = (Throw TypeError, w).
Proof.
  intros Hpath Hsecret. unfold fetch. rewrite Hpath. cbv zeta.
  change (negb true) with false. cbv iota.
  unfold bind at 1. cbv beta. now rewrite Hsecret.
Qed.

Lemma fetch_unsupported (request : Request) (env : Env) (w : World) (secret : ustring) :
  startsWith (pathname request) "/static/" = true ->
  AUTH_KEY_SECRET env = Some secret ->
  includes supportedMethods (method request) = false ->
  fetch request env w
  = (Normal MethodNotAllowed, after w (auth_calls (authToken request) secret)).
Proof.
  intros Hpath Hsecret Hm. enter_handler Hpath Hsecret.
  now rewrite Hm.
Qed.

Lemma fetch_unauthorized (request : Request) (env : Env) (w : World) (secret : ustring) :
  startsWith (pathname request) "/static/" = true ->
  AUTH_KEY_SECRET env = Some secret ->
  includes authenticatedMethods (method request) = true ->
  authenticates (authToken request) secret = false ->
  fetch request env w
  = (Normal (new_Response (BodyString "Unauthorized") 401 ∅),
     after w (auth_calls (authToken request) secret)).
Proof.
  intros Hpath Hsecret Hm Hauth. enter_handler Hpath Hsecret.
  assert (includes supportedMethods (method request) = true) as ->.
  { unfold includes, supportedMethods, authenticatedMethods in *. simpl in *.
    now rewrite Hm, orb_true_r. }
  now rewrite Hm, Hauth.
Qed.

Lemma fetch_put (request : Request) (env : Env) (w : World) (secret : ustring) :
  startsWith (pathname request) "/static/" = true ->
  AUTH_KEY_SECRET env = Some secret ->
  method request = "PUT" ->
  authenticates (authToken request) secret = true ->
  let key := slice 8 (pathname request) in
  let md := only_contentType (contentTypeValue key) in
  fetch request env w
  = (Normal (new_Response (BodyString ("Put " +:+ key +:+ " successfully!")) 200 ∅),
     {| bucket := <[key := {| object_body := request_body request;
                              httpMetadata := md;
                              httpEtag := etag_of (LIVETIMING_BUCKET env) (request_body request) |}]>
                    (bucket w);
        calls := calls w ++ auth_calls (authToken request) secret
                   ++ [Call_put key (request_body request) md] |}).
Proof.
  intros Hpath Hsecret Hm Hauth key md. enter_handler Hpath Hsecret.
  rewrite Hm, Hauth. simpl. unfold bind, bucket_put, ret, after. simpl.
  now rewrite <- app_assoc.
Qed.

Lemma fetch_delete (request : Request) (env : Env) (w : World) (secret : ustring) :
  startsWith (pathname request) "/static/" = true ->
  AUTH_KEY_SECRET env = Some secret ->
  method request = "DELETE" ->
  authenticates (authToken request) secret = true ->
  let key := slice 8 (pathname request) in
  fetch request env w
  = (Normal (new_Response (BodyString "Deleted!") 200 ∅),
     {| bucket := delete key (bucket w);
        calls := calls w ++ auth_calls (authToken request) secret ++ [Call_delete key] |}).
Proof.
  intros Hpath Hsecret Hm Hauth key. enter_handler Hpath Hsecret.
  rewrite Hm, Hauth. simpl. unfold bind, bucket_delete, ret, after. simpl.
  now rewrite <- app_assoc.
Qed.

Lemma fetch_get_status (request : Request) (env : Env) (w : World) (secret : ustring) :
  startsWith (pathname request) "/static/" = true ->
  AUTH_KEY_SECRET env = Some secret ->
  method request = "GET" ->
  slice 8 (pathname request) = "" ->
  fetch request env w
  = (Normal (new_Response (BodyString "Status OK") 200 ∅),
     after w (auth_calls (authToken request) secret)).
Proof.
  intros Hpath Hsecret Hm Hkey. enter_handler Hpath Hsecret.
  rewrite Hm, Hkey. reflexivity.
Qed.

Lemma fetch_get_object (request : Request) (env : Env) (w : World) (secret : ustring) :
  startsWith (pathname request) "/static/" = true ->
  AUTH_KEY_SECRET env = Some secret ->
  method request = "GET" ->
  slice 8 (pathname request) <> "" ->
  let key := slice 8 (pathname request) in
  let w' := after w (auth_calls (authToken request) secret ++ [Call_get key]) in
  fetch request env w
  = match bucket w !! key with
    | None => (Normal (new_Response (BodyString "Object Not Found") 404 ∅), w')
    | Some object =>
        (Normal
           (new_Response (BodyStream (object_body object)) 200
              (Headers_set "Cache-Control"
                 (concat "public, max-age=" (or_else (MAX_CACHE_AGE env) (Num 3600)))
                 (Headers_set "etag" (httpEtag object) (writeHttpMetadata object ∅)))),
         w')
    end.
Proof.
  intros Hpath Hsecret Hm Hkey key w'. enter_handler Hpath Hsecret.
  rewrite Hm. simpl.
  destruct (String.eqb_spec (slice 8 (pathname request)) "") as [Heq|_]; [contradiction|].
  unfold bind, bucket_get, ret, w', key, after. simpl. rewrite <- app_assoc.
  now destruct (bucket w !! slice 8 (pathname request)).
Qed.

End HandlerFacts.

(** ** Authentication *)

Module AuthClaims.

Import JS Platform Worker Auth HandlerFacts Samples.

Lemma new_calls_after (w : World) (cs : list Call) : new_calls w (after w cs) = cs.
Proof. unfold new_calls, after. simpl. apply drop_app_length. Qed.

Lemma compared_eq (token secret : ustring) (w : World) :
  compared token secret w
  = (ulength token =? ulength secret)%nat
    && (byteLength (utf8_encode token) =? byteLength (utf8_encode secret))%nat.
Proof.
  unfold compared. rewrite isAuthenticated_run. simpl. rewrite new_calls_after.
  unfold auth_calls.
  destruct (ulength token =? ulength secret)%nat; [|reflexivity].
  now destruct (byteLength (utf8_encode token) =? byteLength (utf8_encode secret))%nat.
Qed.

(** C1, as amended: the credential is the header's value, or the empty string
    when the header is absent. The check compares the character lengths of
    credential and secret first; when they differ it answers false and calls
    nothing. When they agree it encodes both and compares the encoded byte
    lengths; when those differ it answers false without the byte-wise
    comparison. Only when both pairs of lengths agree is the byte-wise
    comparison made, and its answer is the check's answer. *)
Theorem isAuthenticated_gates_on_both_lengths (token secret : ustring) (w : World) :
  (forall request : Request,
     authToken request
     = default [] (Headers_get PRESHARED_AUTH_HEADER_KEY (request_headers request)))
  /\ isAuthenticated token (Some secret) w
     = (if (ulength token =? ulength secret)%nat then
          if (byteLength (utf8_encode token) =? byteLength (utf8_encode secret))%nat then
            (Normal (bool_decide (utf8_encode token = utf8_encode secret)),
             after w [Call_encode token; Call_encode secret;
                      Call_timingSafeEqual (utf8_encode token) (utf8_encode secret)])
          else (Normal false, after w [Call_encode token; Call_encode secret])
        else (Normal false, w))
  /\ compared token secret w
     = (ulength token =? ulength secret)%nat
       && (byteLength (utf8_encode token) =? byteLength (utf8_encode secret))%nat.
Proof.
  split; [|split].
  - intros request. unfold authToken.
    destruct (Headers_get _ _) as [[|u v]|]; reflexivity.
  - rewrite isAuthenticated_run. unfold authenticates, auth_calls.
    destruct (ulength token =? ulength secret)%nat; simpl.
    + now destruct (byteLength (utf8_encode token) =? byteLength (utf8_encode secret))%nat.
    + now rewrite after_nil.
  - apply compared_eq.
Qed.

(** C1, as stated, fails: the credential ["é"] and the secret ["ab"] have the
    same encoded byte length (two bytes each), yet the byte-wise comparison is
    not made: their character lengths differ, and that is compared first. *)
Lemma byte_length_gate_counterexample :
  ~ gated_by_byte_length_only token_e_acute secret_ab empty_world.
Proof.
  unfold gated_by_byte_length_only. intros [_ H].
  specialize (H eq_refl). vm_compute in H. discriminate H.
Qed.

(** C2: with no secret configured, the check raises for every credential, so it
    never answers true; a request under [/static/] ends in that exception and
    any other request in 400. The world is left as it was: nothing is written
    or deleted, and no response is a success. *)
Theorem missing_secret_fails_closed (request : Request) (env : Env) (w : World) :
  AUTH_KEY_SECRET env = None ->
  (forall token : ustring,
     isAuthenticated token (AUTH_KEY_SECRET env) w = (Throw TypeError, w))
  /\ fetch request env w
     = (if startsWith (pathname request) "/static/"
        then (Throw TypeError, w)
        else (Normal (new_Response (BodyString "Bad Request") 400 ∅), w))
  /\ (forall (r : Response) (w' : World),
        fetch request env w = (Normal r, w') -> status r = 400 /\ w' = w).
Proof.
  intros Hsecret.
  assert (fetch request env w
          = (if startsWith (pathname request) "/static/"
             then (Throw TypeError, w)
             else (Normal (new_Response (BodyString "Bad Request") 400 ∅), w))) as Hrun.
  { destruct (startsWith (pathname request) "/static/") eqn:Hpath.
    - now apply fetch_no_secret.
    - now apply fetch_bad_path. }
  split; [|split].
  - intros token. now rewrite Hsecret.
  - exact Hrun.
  - intros r w'. rewrite Hrun.
    destruct (startsWith (pathname request) "/static/"); [discriminate|].
    intros [= <- <-]. split; reflexivity.
Qed.

Lemma missing_secret_fails_closed_witness :
  fetch (request_of "PUT" "/static/a.json" (Some secret_ab) []) (env_with Undefined None)
    empty_world
  = (Throw TypeError, empty_world).
Proof.
  apply (missing_secret_fails_closed
           (request_of "PUT" "/static/a.json" (Some secret_ab) [])
           (env_with Undefined None) empty_world).
  reflexivity.
Defined.

End AuthClaims.

(** ** Methods and authorization *)

Module AccessClaims.

Import JS Platform Worker Auth HandlerFacts Samples.







(** C9: under [/static/], with the secret configured, a method other than
    [GET], [PUT] and [DELETE] is answered with 405 and the header
    [Allow: GET, PUT, DELETE], whatever credential the request carries; the
    bucket is not touched. *)
Theorem unsupported_method_is_405 (request : Request) (env : Env) (w : World)
    (secret : ustring) :
  startsWith (pathname request) "/static/" = true ->
  AUTH_KEY_SECRET env = Some secret ->
  method request <> "GET" ->
  method request <> "PUT" ->
  method request <> "DELETE" ->
  exists (r : Response) (w' : World),
    fetch request env w = (Normal r, w')
    /\ status r = 405
    /\ Headers_get "Allow" (response_headers r) = Some "GET, PUT, DELETE"
    /\ bucket w' = bucket w.
Proof.
  intros Hpath Hsecret Hget Hput Hdelete.
  assert (includes supportedMethods (method request) = false) as Hm.
  { unfold includes, supportedMethods. simpl.
    destruct (String.eqb_spec (method request) "GET"); [contradiction|].
    destruct (String.eqb_spec (method request) "PUT"); [contradiction|].
    destruct (String.eqb_spec (method request) "DELETE"); [contradiction|].
    reflexivity. }
  exists MethodNotAllowed, (after w (auth_calls (authToken request) secret)).
  split; [now apply fetch_unsupported|].
  split; [reflexivity|]. split; reflexivity.
Qed.

Lemma unsupported_method_is_405_witness :
  exists (r : Response) (w' : World),
    fetch (request_of "POST" "/static/a.json" (Some secret_ab) [])
      (env_with Undefined (Some secret_ab)) empty_world = (Normal r, w')
    /\ status r = 405
    /\ Headers_get "Allow" (response_headers r) = Some "GET, PUT, DELETE"
    /\ bucket w' = bucket empty_world.
Proof.
  apply (unsupported_method_is_405
           (request_of "POST" "/static/a.json" (Some secret_ab) [])
           (env_with Undefined (Some secret_ab)) empty_world secret_ab);
    [reflexivity | reflexivity | discriminate | discriminate | discriminate].
Defined.

(** C10: with the secret configured, a [GET] of [/static/] (the empty key) is
    answered with 200 and the body "Status OK"; none of the calls it makes is a
    call to the bucket, and the bucket is left as it was. *)
Theorem status_check_leaves_bucket_alone (request : Request) (env : Env) (w : World)
    (secret : ustring) :
  method request = "GET" ->
  pathname request = "/static/" ->
  AUTH_KEY_SECRET env = Some secret ->
  exists (r : Response) (w' : World),
    fetch request env w = (Normal r, w')
    /\ status r = 200
    /\ response_body r = BodyString "Status OK"
    /\ forallb (fun c => negb (is_bucket_call c)) (new_calls w w') = true
    /\ bucket w' = bucket w.
Proof.
  intros Hm Hpath Hsecret.
  exists (new_Response (BodyString "Status OK") 200 ∅),
         (after w (auth_calls (authToken request) secret)).
  split.
  - apply fetch_get_status; try assumption; now rewrite Hpath.
  - split; [reflexivity|]. split; [reflexivity|]. split; [|reflexivity].
    unfold new_calls, after. simpl. rewrite drop_app_length.
    apply auth_calls_not_bucket.
Qed.

Lemma status_check_leaves_bucket_alone_witness :
  exists (r : Response) (w' : World),
    fetch (request_of "GET" "/static/" None []) (env_with Undefined (Some secret_ab))
      (world_with "a.json" [x01]) = (Normal r, w')
    /\ status r = 200
    /\ response_body r = BodyString "Status OK"
    /\ forallb (fun c => negb (is_bucket_call c)) (new_calls (world_with "a.json" [x01]) w')
       = true
    /\ bucket w' = bucket (world_with "a.json" [x01]).
Proof.
  apply (status_check_leaves_bucket_alone
           (request_of "GET" "/static/" None []) (env_with Undefined (Some secret_ab))
           (world_with "a.json" [x01]) secret_ab);
    reflexivity.
Defined.

End AccessClaims.

(** ** Reading and writing the bucket *)

Module StoreClaims.

Import JS Platform Worker Auth StringFacts HandlerFacts Samples.

Lemma contentTypeValue_jsonStream (key : string) :
  endsWith key ".jsonStream" = true -> contentTypeValue key = "application/octet-stream".
Proof. intros H. unfold contentTypeValue. now rewrite H. Qed.

Lemma contentTypeValue_json (key : string) :
  endsWith key ".json" = true -> contentTypeValue key = "application/json".
Proof.
  intros H. unfold contentTypeValue.
  now rewrite (endsWith_json_not_jsonStream _ H), H.
Qed.

Lemma contentTypeValue_other (key : string) :
  endsWith key ".jsonStream" = false -> endsWith key ".json" = false ->
  contentTypeValue key = "".
Proof. intros H1 H2. unfold contentTypeValue. now rewrite H1, H2. Qed.

(** What [writeHttpMetadata] writes under [content-type]. *)
Lemma writeHttpMetadata_contentType (object : R2Object) :
  Headers_get "Content-Type" (writeHttpMetadata object ∅) = contentType (httpMetadata object).
Proof.
  unfold writeHttpMetadata, set_if_present, Headers_get, Headers_set.
  destruct (httpMetadata object) as [ct cl cd ce cc cx]. simpl.
  destruct cx, cc, ce, cd, cl, ct; reflexivity.
Qed.

(** C7: an authenticated [PUT /static/{key}] is answered with 200 and the body
    "Put {key} successfully!". It makes one call to the bucket, a put of the
    request's body under the key, after which the key holds that object
    whatever it held before. The content type stored with it follows the key's
    suffix: [application/octet-stream] for [.jsonStream], [application/json]
    for [.json], and the empty string otherwise. *)
Theorem put_stores_with_content_type (request : Request) (env : Env) (w : World)
    (secret : ustring) :
  startsWith (pathname request) "/static/" = true ->
  method request = "PUT" ->
  AUTH_KEY_SECRET env = Some secret ->
  authenticates (authToken request) secret = true ->
  let key := slice 8 (pathname request) in
  exists (r : Response) (w' : World) (object : R2Object),
    fetch request env w = (Normal r, w')
    /\ status r = 200
    /\ response_body r = BodyString ("Put " +:+ key +:+ " successfully!")
    /\ bucket w' = <[key := object]> (bucket w)
    /\ bucket w' !! key = Some object
    /\ object_body object = request_body request
    /\ filter (fun c => is_bucket_call c = true) (new_calls w w')
       = [Call_put key (request_body request) (httpMetadata object)]
    /\ (endsWith key ".jsonStream" = true ->
        contentType (httpMetadata object) = Some "application/octet-stream")
    /\ (endsWith key ".json" = true ->
        contentType (httpMetadata object) = Some "application/json")
    /\ (endsWith key ".jsonStream" = false -> endsWith key ".json" = false ->
        contentType (httpMetadata object) = Some "").
Proof.
  intros Hpath Hm Hsecret Hauth key.
  eexists _, _, _. split; [exact (fetch_put _ _ _ _ Hpath Hsecret Hm Hauth)|]. fold key.
  repeat split; simpl.
  - apply lookup_insert_eq.
  - unfold new_calls. simpl. rewrite drop_app_length.
    rewrite filter_app.
    assert (filter (fun c => is_bucket_call c = true) (auth_calls (authToken request) secret)
            = []) as ->; [|reflexivity].
    unfold auth_calls.
    destruct (ulength (authToken request) =? ulength secret)%nat; [|reflexivity].
    now destruct (byteLength _ =? byteLength _)%nat.
  - intros H. now rewrite contentTypeValue_jsonStream.
  - intros H. now rewrite contentTypeValue_json.
  - intros H1 H2. now rewrite contentTypeValue_other.
Qed.

Lemma put_stores_with_content_type_witness :
  exists (r : Response) (w' : World) (object : R2Object),
    fetch (request_of "PUT" "/static/a.json" (Some secret_ab) [x02])
      (env_with Undefined (Some secret_ab)) (world_with "a.json" [x01]) = (Normal r, w')
    /\ status r = 200
    /\ response_body r = BodyString "Put a.json successfully!"
    /\ bucket w' !! "a.json" = Some object
    /\ object_body object = [x02]
    /\ contentType (httpMetadata object) = Some "application/json".
Proof.
  destruct (put_stores_with_content_type
              (request_of "PUT" "/static/a.json" (Some secret_ab) [x02])
              (env_with Undefined (Some secret_ab)) (world_with "a.json" [x01]) secret_ab
              eq_refl eq_refl eq_refl eq_refl)
    as (r & w' & object & Hrun & Hstatus & Hbody & _ & Hkey & Hobject & _ & _ & Hjson & _).
  exists r, w', object. repeat split; try assumption.
  apply Hjson. reflexivity.
Defined.

(** The age the handler puts in the cache header. *)
Lemma cache_max_age_of_option (configured : option Z) :
  or_else (option_value configured) (Num 3600)
  = Num (match configured with
         | Some n => if n =? 0 then 3600 else n
         | None => 3600
         end).
Proof.
  destruct configured as [n|]; [|reflexivity].
  unfold or_else. simpl. now destruct (n =? 0).
Qed.

(** What the [GET] branch does for a stored object, for every configured
    integer: with the secret configured, a [GET /static/{key}] of a non-empty
    key that the bucket holds is answered with 200 and the object's bytes. Its
    headers are the object's stored HTTP metadata, then [etag] set to the
    object's entity tag, then [Cache-Control] set to "public, max-age=N",
    where N is what [env.MAX_CACHE_AGE || 3600] evaluates to: the configured
    integer unless it is falsy. *)
Theorem get_serves_stored_object (request : Request) (env : Env) (w : World)
    (secret : ustring) (object : R2Object) (configured : option Z) :
  startsWith (pathname request) "/static/" = true ->
  method request = "GET" ->
  AUTH_KEY_SECRET env = Some secret ->
  slice 8 (pathname request) <> "" ->
  bucket w !! slice 8 (pathname request) = Some object ->
  MAX_CACHE_AGE env = option_value configured ->
  (forall n : Z, configured = Some n -> safe_integer n) ->
  let age := match configured with
             | Some n => if n =? 0 then 3600 else n
             | None => 3600
             end in
  exists (r : Response) (w' : World),
    fetch request env w = (Normal r, w')
    /\ status r = 200
    /\ response_body r = BodyStream (object_body object)
    /\ response_headers r
       = Headers_set "Cache-Control" ("public, max-age=" +:+ decimal age)
           (Headers_set "etag" (httpEtag object) (writeHttpMetadata object ∅))
    /\ Headers_get "Cache-Control" (response_headers r)
       = Some ("public, max-age=" +:+ decimal age)
    /\ Headers_get "etag" (response_headers r) = Some (httpEtag object)
    /\ Headers_get "Content-Type" (response_headers r) = contentType (httpMetadata object)
    /\ (forall name : string,
          lower name <> "etag" -> lower name <> "cache-control" ->
          Headers_get name (response_headers r)
          = Headers_get name (writeHttpMetadata object ∅))
    /\ bucket w' = bucket w.
Proof.
  intros Hpath Hm Hsecret Hkey Hobject Hage _ age.
  eexists _, _. split.
  - rewrite (fetch_get_object _ _ _ _ Hpath Hsecret Hm Hkey), Hobject.
    rewrite Hage, cache_max_age_of_option. reflexivity.
  - fold age. unfold JS.concat, ToString, new_Response. simpl.
    repeat split.
    + unfold Headers_get, Headers_set. simpl. apply lookup_insert_eq.
    + unfold Headers_get, Headers_set. simpl.
      rewrite lookup_insert_ne by discriminate. apply lookup_insert_eq.
    + rewrite <- writeHttpMetadata_contentType.
      unfold Headers_get, Headers_set. simpl.
      now rewrite !lookup_insert_ne by discriminate.
    + intros name Hetag Hcache. unfold Headers_get, Headers_set.
      change (lower "Cache-Control") with "cache-control".
      change (lower "etag") with "etag".
      rewrite !lookup_insert_ne by congruence. reflexivity.
Qed.

Lemma get_serves_stored_object_witness :
  exists (r : Response) (w' : World),
    fetch (request_of "GET" "/static/a.json" None []) (env_with (Num 60) (Some secret_ab))
      (world_with "a.json" [x01]) = (Normal r, w')
    /\ status r = 200
    /\ response_body r = BodyStream [x01]
    /\ Headers_get "Cache-Control" (response_headers r) = Some "public, max-age=60"
    /\ Headers_get "etag" (response_headers r) = Some "etag-0"
    /\ Headers_get "Content-Type" (response_headers r) = Some "application/json".
Proof.
  assert (forall n : Z, Some 60 = Some n -> safe_integer n) as Hsafe.
  { intros n [= <-]. unfold safe_integer. simpl. lia. }
  destruct (get_serves_stored_object
              (request_of "GET" "/static/a.json" None []) (env_with (Num 60) (Some secret_ab))
              (world_with "a.json" [x01]) secret_ab (stored [x01]) (Some 60)
              eq_refl eq_refl eq_refl ltac:(discriminate) eq_refl eq_refl Hsafe)
    as (r & w' & Hrun & Hstatus & Hbody & _ & Hcache & Hetag & Htype & _).
  exists r, w'. repeat split; assumption.
Defined.

(** Everywhere but at zero the header is the one the spec describes: the
    configured integer, and 3600 when the option is absent. *)
Lemma cache_control_as_configured (request : Request) (env : Env) (w : World)
    (secret : ustring) (object : R2Object) (configured : option Z) :
  startsWith (pathname request) "/static/" = true ->
  method request = "GET" ->
  AUTH_KEY_SECRET env = Some secret ->
  slice 8 (pathname request) <> "" ->
  bucket w !! slice 8 (pathname request) = Some object ->
  MAX_CACHE_AGE env = option_value configured ->
  (forall n : Z, configured = Some n -> safe_integer n) ->
  configured <> Some 0 ->
  exists (r : Response) (w' : World),
    fetch request env w = (Normal r, w')
    /\ Headers_get "Cache-Control" (response_headers r)
       = Some (cache_control_of_option configured).
Proof.
  intros Hpath Hm Hsecret Hkey Hobject Hage Hsafe Hnonzero.
  destruct (get_serves_stored_object request env w secret object configured
              Hpath Hm Hsecret Hkey Hobject Hage Hsafe)
    as (r & w' & Hrun & _ & _ & _ & Hcache & _).
  exists r, w'. split; [exact Hrun|]. rewrite Hcache.
  unfold cache_control_of_option. destruct configured as [n|]; [|reflexivity].
  simpl. destruct (Z.eqb_spec n 0) as [->|]; [congruence | reflexivity].
Qed.

(** C8, at the failing input: with [MAX_CACHE_AGE] configured as the integer 0
    the header is "public, max-age=3600", not the "public, max-age=0" that C8
    describes. The [||] of line 24 takes the configured 0 for an absent
    option. *)
Lemma zero_max_age_counterexample :
  exists (r : Response) (w' : World),
    fetch (request_of "GET" "/static/a.json" None [])
      (env_with (option_value (Some 0)) (Some secret_ab)) (world_with "a.json" [x01])
    = (Normal r, w')
    /\ Headers_get "Cache-Control" (response_headers r) = Some "public, max-age=3600"
    /\ Headers_get "Cache-Control" (response_headers r)
       <> Some (cache_control_of_option (Some 0)).
Proof.
  eexists _, _. split.
  - rewrite (fetch_get_object _ _ _ secret_ab); [|reflexivity..|discriminate].
    reflexivity.
  - split; [reflexivity|]. vm_compute. discriminate.
Qed.

(** C6: with the secret configured, for a non-empty key and requests that
    carry the secret as credential, [PUT], [GET], [DELETE], [GET] of
    [/static/{key}] served one after the other are answered with 200, then 200
    with the bytes that were put, then 200, then 404. *)
Theorem put_get_delete_get (env : Env) (secret : ustring) (key : string)
    (payload : list byte) (put get1 del get2 : Request) (w0 : World) :
  AUTH_KEY_SECRET env = Some secret ->
  key <> "" ->
  method put = "PUT" -> pathname put = "/static/" +:+ key ->
  request_body put = payload -> authToken put = secret ->
  method get1 = "GET" -> pathname get1 = "/static/" +:+ key ->
  method del = "DELETE" -> pathname del = "/static/" +:+ key ->
  authToken del = secret ->
  method get2 = "GET" -> pathname get2 = "/static/" +:+ key ->
  exists (r1 r2 r3 r4 : Response) (w1 w2 w3 w4 : World),
    fetch put env w0 = (Normal r1, w1) /\ status r1 = 200
    /\ fetch get1 env w1 = (Normal r2, w2) /\ status r2 = 200
    /\ response_body r2 = BodyStream payload
    /\ fetch del env w2 = (Normal r3, w3) /\ status r3 = 200
    /\ fetch get2 env w3 = (Normal r4, w4) /\ status r4 = 404.
Proof.
  intros Hsecret Hkey Hm1 Hp1 Hbody Ht1 Hm2 Hp2 Hm3 Hp3 Ht3 Hm4 Hp4.
  assert (forall request, pathname request = "/static/" +:+ key ->
            startsWith (pathname request) "/static/" = true
            /\ slice 8 (pathname request) = key) as Hpath.
  { intros request ->. split; [apply startsWith_static | apply slice_static]. }
  destruct (Hpath _ Hp1) as [Hs1 Hk1], (Hpath _ Hp2) as [Hs2 Hk2],
           (Hpath _ Hp3) as [Hs3 Hk3], (Hpath _ Hp4) as [Hs4 Hk4].
  assert (authenticates (authToken put) secret = true) as Ha1
    by (rewrite Ht1; apply authenticates_refl).
  assert (authenticates (authToken del) secret = true) as Ha3
    by (rewrite Ht3; apply authenticates_refl).
  eexists _, _, _, _, _, _, _, _.
  split; [exact (fetch_put _ _ _ _ Hs1 Hsecret Hm1 Ha1)|].
  split; [reflexivity|].
  split.
  { rewrite (fetch_get_object _ _ _ _ Hs2 Hsecret Hm2) by now rewrite Hk2.
    simpl. rewrite Hk1, Hk2, lookup_insert_eq. reflexivity. }
  split; [reflexivity|].
  split; [simpl; now rewrite Hbody|].
  split; [exact (fetch_delete _ _ _ _ Hs3 Hsecret Hm3 Ha3)|].
  split; [reflexivity|].
  split.
  { rewrite (fetch_get_object _ _ _ _ Hs4 Hsecret Hm4) by now rewrite Hk4.
    simpl. rewrite Hk3, Hk4, lookup_delete_eq. reflexivity. }
  reflexivity.
Qed.

Lemma put_get_delete_get_witness :
  exists (r1 r2 r3 r4 : Response) (w1 w2 w3 w4 : World),
    fetch (request_of "PUT" "/static/a.json" (Some secret_ab) [x01; x02])
      (env_with Undefined (Some secret_ab)) empty_world = (Normal r1, w1)
    /\ status r1 = 200
    /\ fetch (request_of "GET" "/static/a.json" None [])
         (env_with Undefined (Some secret_ab)) w1 = (Normal r2, w2)
    /\ status r2 = 200
    /\ response_body r2 = BodyStream [x01; x02]
    /\ fetch (request_of "DELETE" "/static/a.json" (Some secret_ab) [])
         (env_with Undefined (Some secret_ab)) w2 = (Normal r3, w3)
    /\ status r3 = 200
    /\ fetch (request_of "GET" "/static/a.json" None [])
         (env_with Undefined (Some secret_ab)) w3 = (Normal r4, w4)
    /\ status r4 = 404.
Proof.
  apply (put_get_delete_get (env_with Undefined (Some secret_ab)) secret_ab "a.json"
           [x01; x02]
           (request_of "PUT" "/static/a.json" (Some secret_ab) [x01; x02])
           (request_of "GET" "/static/a.json" None [])
           (request_of "DELETE" "/static/a.json" (Some secret_ab) [])
           (request_of "GET" "/static/a.json" None []) empty_world);
    first [reflexivity | discriminate].
Defined.

End StoreClaims.

(** ** Facts about the encoding *)

Module UnicodeFacts.

Import JS Platform Unicode.

Ltac small_cases y :=
  let n := fresh "n" in
  let Hn := fresh "Hn" in
  assert (exists n : nat, y = Z.of_nat n /\ (n < 64)%nat) as (n & -> & Hn)
    by (exists (Z.to_nat y); split; lia);
  do 64 (destruct n as [|n]; [first [reflexivity | lia]|]); lia.

Lemma lor_0x80 (y : Z) : 0 <= y < 64 -> Z.lor 0x80 y = 128 + y.
Proof. intros H. small_cases y. Qed.
Lemma lor_0xC0 (y : Z) : 0 <= y < 32 -> Z.lor 0xC0 y = 192 + y.
Proof. intros H. small_cases y. Qed.
Lemma lor_0xE0 (y : Z) : 0 <= y < 16 -> Z.lor 0xE0 y = 224 + y.
Proof. intros H. small_cases y. Qed.
Lemma lor_0xF0 (y : Z) : 0 <= y < 8 -> Z.lor 0xF0 y = 240 + y.
Proof. intros H. small_cases y. Qed.

Lemma land_0x3F (x : Z) : Z.land x 0x3F = x mod 64.
Proof. change 0x3F with (Z.ones 6). now rewrite Z.land_ones by lia. Qed.

Lemma utf8_bytes_arith (c : Z) : 0 <= c < 0x110000 -> utf8_bytes c = utf8_arith c.
Proof.
  intros H. unfold utf8_bytes, utf8_arith.
  rewrite !land_0x3F, !Z.shiftr_div_pow2 by lia.
  change (2 ^ 6) with 64. change (2 ^ 12) with 4096. change (2 ^ 18) with 262144.
  destruct (Z.ltb_spec c 0x80); [reflexivity|].
  destruct (Z.ltb_spec c 0x800).
  { rewrite lor_0xC0, lor_0x80; [reflexivity | |]; Z.div_mod_to_equations; lia. }
  destruct (Z.ltb_spec c 0x10000).
  { rewrite lor_0xE0, !lor_0x80; [reflexivity | | |]; Z.div_mod_to_equations; lia. }
  rewrite lor_0xF0, !lor_0x80; [reflexivity | | | |]; Z.div_mod_to_equations; lia.
Qed.

Lemma utf8_bytes_app_inj (c c' : Z) (r r' : list Z) :
  0 <= c < 0x110000 -> 0 <= c' < 0x110000 ->
  (utf8_bytes c ++ r = utf8_bytes c' ++ r')%list -> c = c' /\ r = r'.
Proof.
  intros Hc Hc'. rewrite !utf8_bytes_arith by assumption. unfold utf8_arith.
  destruct (Z.ltb_spec c 0x80); [|destruct (Z.ltb_spec c 0x800); [|destruct (Z.ltb_spec c 0x10000)]];
  (destruct (Z.ltb_spec c' 0x80); [|destruct (Z.ltb_spec c' 0x800); [|destruct (Z.ltb_spec c' 0x10000)]]);
  simpl; intros Heq; injection Heq; intros; split; try assumption;
  Z.div_mod_to_equations; lia.
Qed.

Lemma ustring_pair_ind (P : ustring -> Prop) :
  P [] -> (forall u, P [u]) ->
  (forall u l rest, P rest -> P (l :: rest) -> P (u :: l :: rest)) ->
  forall s, P s.
Proof.
  intros Hnil Hone Hstep s.
  assert (P s /\ forall u, P (u :: s)) as [H _]; [|exact H].
  induction s as [|l rest [IH1 IH2]].
  - split; [exact Hnil | exact Hone].
  - split; [apply IH2|]. intros u. apply Hstep; [exact IH1 | apply IH2].
Qed.

Lemma utf8_encode_step (u l : Z) (rest : ustring) :
  utf8_encode (u :: l :: rest)
  = (if is_high_surrogate u then
      if is_low_surrogate l
      then utf8_bytes (0x10000 + Z.shiftl (u - 0xD800) 10 + (l - 0xDC00)) ++ utf8_encode rest
      else utf8_bytes 0xFFFD ++ utf8_encode (l :: rest)
    else if is_low_surrogate u then utf8_bytes 0xFFFD ++ utf8_encode (l :: rest)
    else utf8_bytes u ++ utf8_encode (l :: rest))%list.
Proof. reflexivity. Qed.

Lemma scalars_step (u l : Z) (rest : ustring) :
  scalars (u :: l :: rest)
  = if is_high_surrogate u then
      if is_low_surrogate l
      then (0x10000 + Z.shiftl (u - 0xD800) 10 + (l - 0xDC00)) :: scalars rest
      else 0xFFFD :: scalars (l :: rest)
    else if is_low_surrogate u then 0xFFFD :: scalars (l :: rest)
    else u :: scalars (l :: rest).
Proof. reflexivity. Qed.

Lemma well_formed_step (u l : Z) (rest : ustring) :
  well_formed (u :: l :: rest)
  = (0 <=? u) && (u <? 65536)
    && if is_high_surrogate u then is_low_surrogate l && well_formed rest
       else negb (is_low_surrogate u) && well_formed (l :: rest).
Proof. reflexivity. Qed.

Lemma utf8_encode_scalars (s : ustring) :
  utf8_encode s = flat_map utf8_bytes (scalars s).
Proof.
  induction s as [|u|u l rest IH1 IH2] using ustring_pair_ind.
  - reflexivity.
  - simpl. destruct (is_high_surrogate u); [reflexivity|].
    now destruct (is_low_surrogate u).
  - rewrite utf8_encode_step, scalars_step.
    destruct (is_high_surrogate u).
    + destruct (is_low_surrogate l); simpl flat_map; now rewrite ?IH1, ?IH2.
    + destruct (is_low_surrogate u); simpl flat_map; now rewrite IH2.
Qed.

Lemma surrogate_pair_value (u l : Z) :
  is_high_surrogate u = true -> is_low_surrogate l = true ->
  0x10000 <= 0x10000 + Z.shiftl (u - 0xD800) 10 + (l - 0xDC00) < 0x110000.
Proof.
  unfold is_high_surrogate, is_low_surrogate. intros Hu Hl.
  rewrite Z.shiftl_mul_pow2 by lia. change (2 ^ 10) with 1024. lia.
Qed.

Lemma scalars_valid (s : ustring) :
  in_range s -> Forall scalar_value (scalars s).
Proof.
  unfold scalar_value.
  induction s as [|u|u l rest IH1 IH2] using ustring_pair_ind; intros Hr.
  - constructor.
  - inversion Hr; subst. simpl.
    destruct (is_high_surrogate u); [repeat constructor; lia|].
    destruct (is_low_surrogate u); repeat constructor; lia.
  - inversion Hr as [|? ? Hu Hr']; subst. inversion Hr' as [|? ? Hl Hr'']; subst.
    rewrite scalars_step.
    destruct (is_high_surrogate u) eqn:Hh.
    + destruct (is_low_surrogate l) eqn:Hlow.
      * constructor; [|now apply IH1].
        pose proof (surrogate_pair_value u l Hh Hlow). lia.
      * constructor; [lia | now apply IH2].
    + destruct (is_low_surrogate u); (constructor; [lia | now apply IH2]).
Qed.

Lemma utf8_bytes_not_nil (c : Z) (r : list Z) : (utf8_bytes c ++ r)%list <> [].
Proof.
  unfold utf8_bytes.
  destruct (c <? 0x80); [discriminate|].
  destruct (c <? 0x800); [discriminate|].
  destruct (c <? 0x10000); discriminate.
Qed.

Lemma flat_map_utf8_bytes_inj (cs cs' : list Z) :
  Forall scalar_value cs -> Forall scalar_value cs' ->
  flat_map utf8_bytes cs = flat_map utf8_bytes cs' -> cs = cs'.
Proof.
  intros Hcs. revert cs'.
  induction Hcs as [|c cs Hc Hcs IH]; intros [|c' cs'] Hcs' Heq; simpl in Heq.
  - reflexivity.
  - symmetry in Heq. now apply utf8_bytes_not_nil in Heq.
  - now apply utf8_bytes_not_nil in Heq.
  - inversion Hcs' as [|? ? Hc' Hrest]; subst.
    apply utf8_bytes_app_inj in Heq as [-> Heq]; [|assumption..].
    f_equal. now apply IH.
Qed.

Lemma width_unit (c : Z) : c < 0x10000 -> width c = 1%nat.
Proof. intros H. unfold width. destruct (Z.ltb_spec c 0x10000); [reflexivity | lia]. Qed.

Lemma width_pair (c : Z) : 0x10000 <= c -> width c = 2%nat.
Proof. intros H. unfold width. destruct (Z.ltb_spec c 0x10000); [lia | reflexivity]. Qed.

Lemma ulength_scalars (s : ustring) :
  in_range s -> ulength s = units_of (scalars s).
Proof.
  unfold ulength.
  induction s as [|u|u l rest IH1 IH2] using ustring_pair_ind; intros Hr.
  - reflexivity.
  - inversion Hr; subst. simpl.
    destruct (is_high_surrogate u); [reflexivity|].
    destruct (is_low_surrogate u); [reflexivity|]. simpl.
    now rewrite width_unit by lia.
  - inversion Hr as [|? ? Hu Hr']; subst. inversion Hr' as [|? ? Hl Hr'']; subst.
    rewrite scalars_step.
    destruct (is_high_surrogate u) eqn:Hh.
    + destruct (is_low_surrogate l) eqn:Hlow; cbn [units_of].
      * pose proof (surrogate_pair_value u l Hh Hlow) as Hv.
        rewrite width_pair, <- IH1 by (assumption || lia). reflexivity.
      * rewrite width_unit, <- IH2 by (assumption || lia). reflexivity.
    + destruct (is_low_surrogate u); cbn [units_of];
        rewrite width_unit, <- IH2 by (assumption || lia); reflexivity.
Qed.

Lemma utf8_encode_scalars_inj (s t : ustring) :
  in_range s -> in_range t ->
  utf8_encode s = utf8_encode t -> scalars s = scalars t.
Proof.
  intros Hs Ht. rewrite !utf8_encode_scalars.
  apply flat_map_utf8_bytes_inj; now apply scalars_valid.
Qed.

Lemma utf8_encode_ulength (s t : ustring) :
  in_range s -> in_range t ->
  utf8_encode s = utf8_encode t -> ulength s = ulength t.
Proof.
  intros Hs Ht Heq. rewrite !ulength_scalars by assumption.
  now rewrite (utf8_encode_scalars_inj s t).
Qed.

Lemma well_formed_in_range (s : ustring) : well_formed s = true -> in_range s.
Proof.
  unfold in_range.
  induction s as [|u|u l rest IH1 IH2] using ustring_pair_ind.
  - constructor.
  - simpl. intros H. apply andb_prop in H as [H _]. apply andb_prop in H as [H1 H2].
    repeat constructor; lia.
  - rewrite well_formed_step. intros H.
    apply andb_prop in H as [H Hrest]. apply andb_prop in H as [H1 H2].
    constructor; [lia|].
    destruct (is_high_surrogate u).
    + apply andb_prop in Hrest as [Hl Hrest]. constructor; [|now apply IH1].
      unfold is_low_surrogate in Hl. lia.
    + apply andb_prop in Hrest as [_ Hrest]. now apply IH2.
Qed.

Lemma utf16_units_scalars (s : ustring) :
  well_formed s = true -> flat_map utf16_units (scalars s) = s.
Proof.
  induction s as [|u|u l rest IH1 IH2] using ustring_pair_ind.
  - reflexivity.
  - simpl. intros H. apply andb_prop in H as [H Hrest]. apply andb_prop in H as [H1 H2].
    destruct (is_high_surrogate u); [discriminate|].
    destruct (is_low_surrogate u); [discriminate|]. simpl.
    unfold utf16_units. destruct (Z.ltb_spec u 0x10000); [reflexivity | lia].
  - rewrite well_formed_step, scalars_step. intros H.
    apply andb_prop in H as [H Hrest]. apply andb_prop in H as [H1 H2].
    destruct (is_high_surrogate u) eqn:Hh.
    + apply andb_prop in Hrest as [Hl Hrest]. rewrite Hl.
      pose proof (surrogate_pair_value u l Hh Hl) as Hv.
      cbn [flat_map]. rewrite (IH1 Hrest). unfold utf16_units.
      destruct (Z.ltb_spec (0x10000 + Z.shiftl (u - 0xD800) 10 + (l - 0xDC00)) 0x10000);
        [lia|].
      unfold is_high_surrogate, is_low_surrogate in Hh, Hl.
      rewrite Z.shiftl_mul_pow2 by lia. change (2 ^ 10) with 1024.
      simpl app. f_equal; [|f_equal]; Z.div_mod_to_equations; lia.
    + apply andb_prop in Hrest as [Hlow Hrest].
      destruct (is_low_surrogate u); [discriminate|].
      cbn [flat_map]. rewrite (IH2 Hrest). unfold utf16_units.
      destruct (Z.ltb_spec u 0x10000); [reflexivity | lia].
Qed.

Lemma scalars_inj (s t : ustring) :
  well_formed s = true -> well_formed t = true -> scalars s = scalars t -> s = t.
Proof.
  intros Hs Ht Heq.
  rewrite <- (utf16_units_scalars s Hs), <- (utf16_units_scalars t Ht).
  now rewrite Heq.
Qed.

Lemma utf8_encode_inj (s t : ustring) :
  well_formed s = true -> well_formed t = true ->
  utf8_encode s = utf8_encode t -> s = t.
Proof.
  intros Hs Ht Heq. apply scalars_inj; [assumption..|].
  apply utf8_encode_scalars_inj; [now apply well_formed_in_range..|exact Heq].
Qed.

End UnicodeFacts.

(** ** What the authentication check accepts *)

Module AuthExtras.

Import JS Platform Worker Auth Unicode UnicodeFacts Samples.

Lemma in_range_cons (u : Z) (s : ustring) : 0 <= u < 65536 -> in_range s -> in_range (u :: s).
Proof. intros Hu Hs. now constructor. Qed.

Lemma in_range_nil : in_range [].
Proof. constructor. Qed.

(** X1: between well-formed UTF-16 strings (16-bit code units, no lone
    surrogate) the check answers true exactly when the credential is the
    secret: UTF-8 encoding is injective on them, so no other credential
    passes. *)
Theorem well_formed_credential_passes_iff_secret (token secret : ustring) (w : World) :
  well_formed token = true ->
  well_formed secret = true ->
  isAuthenticated token (Some secret) w
  = (Normal (bool_decide (token = secret)), after w (auth_calls token secret)).
Proof.
  intros Htoken Hsecret. rewrite isAuthenticated_run. do 2 f_equal.
  destruct (authenticates token secret) eqn:Hauth; symmetry.
  - apply bool_decide_eq_true. apply utf8_encode_inj; [assumption..|].
    now apply authenticates_bytes.
  - apply bool_decide_eq_false. intros ->.
    rewrite authenticates_refl in Hauth. discriminate.
Qed.

Lemma well_formed_credential_passes_iff_secret_witness :
  isAuthenticated [0xD83D; 0xDE00] (Some [0xD83D; 0xDE01]) empty_world
  = (Normal false,
     after empty_world (auth_calls [0xD83D; 0xDE00] [0xD83D; 0xDE01])).
Proof.
  apply (well_formed_credential_passes_iff_secret
           [0xD83D; 0xDE00] [0xD83D; 0xDE01] empty_world);
    reflexivity.
Defined.

(** X2: on strings of 16-bit code units the check answers exactly whether the
    two UTF-8 encodings are equal: equal encodings have equal character
    lengths, so the two length tests never reject a credential whose bytes
    are the secret's. (With a lone surrogate two different strings can have
    equal encodings, and then the credential passes.) *)
Theorem check_decides_byte_equality (token secret : ustring) (w : World) :
  in_range token ->
  in_range secret ->
  (utf8_encode token = utf8_encode secret -> ulength token = ulength secret)
  /\ fst (isAuthenticated token (Some secret) w)
     = Normal (bool_decide (utf8_encode token = utf8_encode secret)).
Proof.
  intros Htoken Hsecret. split; [now apply utf8_encode_ulength|].
  rewrite isAuthenticated_run. simpl. f_equal. unfold authenticates.
  destruct (bool_decide (utf8_encode token = utf8_encode secret)) eqn:Heq.
  - apply bool_decide_eq_true in Heq.
    rewrite (utf8_encode_ulength _ _ Htoken Hsecret Heq), Heq, !Nat.eqb_refl.
    reflexivity.
  - now rewrite andb_false_r.
Qed.

Lemma check_decides_byte_equality_witness :
  fst (isAuthenticated [0xD800] (Some [0xFFFD]) empty_world) = Normal true.
Proof.
  apply (check_decides_byte_equality [0xD800] [0xFFFD] empty_world).
  - apply in_range_cons; [lia | apply in_range_nil].
  - apply in_range_cons; [lia | apply in_range_nil].
Defined.

End AuthExtras.

(** ** Every run of the handler, by cases *)

Module Cases.

Import JS Platform Worker Auth HandlerFacts.

Lemma method_cases (m : string) :
  m = "GET" \/ m = "PUT" \/ m = "DELETE" \/ includes supportedMethods m = false.
Proof.
  unfold includes, supportedMethods. simpl.
  destruct (String.eqb_spec m "GET"); [now left|].
  destruct (String.eqb_spec m "PUT"); [now right; left|].
  destruct (String.eqb_spec m "DELETE"); [now right; right; left|].
  now right; right; right.
Qed.

Lemma unsupported_method (m : string) :
  includes supportedMethods m = false -> m <> "GET" /\ m <> "PUT" /\ m <> "DELETE".
Proof. intros H. repeat split; intros ->; discriminate. Qed.

Lemma authenticated_put (m : string) :
  m = "PUT" -> includes authenticatedMethods m = true.
Proof. now intros ->. Qed.

Lemma authenticated_delete (m : string) :
  m = "DELETE" -> includes authenticatedMethods m = true.
Proof. now intros ->. Qed.

(** Splits on the path, the secret, the method, the check's answer and the
    key, and replaces the run of [fetch] by its outcome in each case. *)
Ltac fetch_cases request env w :=
  let secret := fresh "secret" in
  let Hpath := fresh "Hpath" in
  let Hsecret := fresh "Hsecret" in
  let Hm := fresh "Hm" in
  let Hkey := fresh "Hkey" in
  let Hobject := fresh "Hobject" in
  let Hauth := fresh "Hauth" in
  destruct (startsWith (pathname request) "/static/") eqn:Hpath;
  [ destruct (AUTH_KEY_SECRET env) as [secret|] eqn:Hsecret;
    [ destruct (method_cases (method request)) as [Hm | [Hm | [Hm | Hm]]];
      [ destruct (String.eqb_spec (slice 8 (pathname request)) "") as [Hkey|Hkey];
        [ rewrite (fetch_get_status request env w secret Hpath Hsecret Hm Hkey) in *
        | rewrite (fetch_get_object request env w secret Hpath Hsecret Hm Hkey) in *;
          destruct (bucket w !! slice 8 (pathname request)) eqn:Hobject ]
      | destruct (authenticates (authToken request) secret) eqn:Hauth;
        [ rewrite (fetch_put request env w secret Hpath Hsecret Hm Hauth) in *
        | rewrite (fetch_unauthorized request env w secret Hpath Hsecret
                     (authenticated_put _ Hm) Hauth) in * ]
      | destruct (authenticates (authToken request) secret) eqn:Hauth;
        [ rewrite (fetch_delete request env w secret Hpath Hsecret Hm Hauth) in *
        | rewrite (fetch_unauthorized request env w secret Hpath Hsecret
                     (authenticated_delete _ Hm) Hauth) in * ]
      | rewrite (fetch_unsupported request env w secret Hpath Hsecret Hm) in * ]
    | rewrite (fetch_no_secret request env w Hpath Hsecret) in * ]
  | rewrite (fetch_bad_path request env w Hpath) in * ].

Lemma bucket_calls_after (w : World) (cs : list Call) :
  Observed.bucket_calls w (after w cs) = List.filter is_bucket_call cs.
Proof.
  unfold Observed.bucket_calls, new_calls, after. simpl. now rewrite drop_app_length.
Qed.

Lemma new_calls_same (w : World) : new_calls w w = [].
Proof. unfold new_calls. now rewrite drop_all. Qed.

Lemma new_calls_run (w : World) (b : gmap string R2Object) (cs : list Call) :
  new_calls w {| bucket := b; calls := calls w ++ cs |} = cs.
Proof. unfold new_calls. simpl. apply drop_app_length. Qed.

Lemma auth_calls_on_equal_lengths (token secret : ustring) :
  Forall Observed.on_equal_lengths (auth_calls token secret).
Proof.
  unfold auth_calls.
  destruct (ulength token =? ulength secret)%nat; [|constructor].
  destruct (Nat.eqb_spec (byteLength (utf8_encode token)) (byteLength (utf8_encode secret)));
    repeat constructor. assumption.
Qed.

Lemma bucket_calls_same (w : World) : Observed.bucket_calls w w = [].
Proof.
  unfold Observed.bucket_calls, new_calls. now rewrite drop_all.
Qed.

Lemma auth_calls_no_bucket (token secret : ustring) :
  List.filter is_bucket_call (auth_calls token secret) = [].
Proof.
  unfold auth_calls.
  destruct (ulength token =? ulength secret)%nat; [|reflexivity].
  now destruct (byteLength (utf8_encode token) =? byteLength (utf8_encode secret))%nat.
Qed.

Lemma bucket_calls_one (w : World) (b : gmap string R2Object) (cs : list Call) (c : Call) :
  List.filter is_bucket_call cs = [] ->
  is_bucket_call c = true ->
  Observed.bucket_calls w {| bucket := b; calls := calls w ++ cs ++ [c] |} = [c].
Proof.
  intros Hcs Hc. unfold Observed.bucket_calls, new_calls. simpl.
  rewrite drop_app_length, List.filter_app, Hcs. simpl. now rewrite Hc.
Qed.

End Cases.

(** ** More about the handler *)

Module HandlerExtras.

Import JS Platform Worker Auth StringFacts HandlerFacts Cases Observed Samples.



(** X4: the handler never makes [timingSafeEqual] raise. Whatever the
    request and the configuration, every [timingSafeEqual] call of a run is
    on two buffers of one byte length (the test of line 43 comes first), so
    the primitive answers, and answers whether the two buffers are equal. *)
Theorem comparison_only_on_equal_lengths (request : Request) (env : Env)
    (w w' : World) (c : Completion Response) :
  fetch request env w = (c, w') ->
  Forall on_equal_lengths (new_calls w w')
  /\ (forall a b : list Z,
        In (Call_timingSafeEqual a b) (new_calls w w') ->
        timing_safe_equal a b = Some (bool_decide (a = b))).
Proof.
  intros Hrun.
  assert (Forall on_equal_lengths (new_calls w w')) as Hall.
  { fetch_cases request env w; injection Hrun as _ <-;
      first
        [ rewrite new_calls_same; constructor
        | unfold after; rewrite new_calls_run;
          first
            [ apply auth_calls_on_equal_lengths
            | apply Forall_app; split;
              [apply auth_calls_on_equal_lengths | repeat constructor] ] ]. }
  split; [exact Hall|].
  intros a b Hin.
  apply PlatformFacts.timing_safe_equal_spec.
  exact (proj1 (List.Forall_forall _ _) Hall _ Hin).
Qed.

Lemma comparison_only_on_equal_lengths_witness :
  timing_safe_equal [97; 99] [97; 98] = Some (bool_decide ([97; 99] = [97; 98])).
Proof.
  refine (proj2 (comparison_only_on_equal_lengths
                   (request_of "PUT" "/static/a.json" (Some [97; 99]) [x01])
                   (env_with Undefined (Some secret_ab)) empty_world
                   (snd (fetch (request_of "PUT" "/static/a.json" (Some [97; 99]) [x01])
                           (env_with Undefined (Some secret_ab)) empty_world))
                   (fst (fetch (request_of "PUT" "/static/a.json" (Some [97; 99]) [x01])
                           (env_with Undefined (Some secret_ab)) empty_world)) _)
            [97; 99] [97; 98] _).
  - reflexivity.
  - vm_compute. right. right. left. reflexivity.
Defined.

(** X5: the bucket changes only through an authenticated write. If a run of
    the handler ends with a bucket different from the one it started with,
    the path is under [/static/], the method is [PUT] or [DELETE], a secret
    is configured and the credential passed the check. *)
Theorem bucket_changes_only_when_authenticated (request : Request) (env : Env)
    (w w' : World) (c : Completion Response) :
  fetch request env w = (c, w') ->
  bucket w' <> bucket w ->
  startsWith (pathname request) "/static/" = true
  /\ (method request = "PUT" \/ method request = "DELETE")
  /\ exists secret : ustring,
       AUTH_KEY_SECRET env = Some secret
       /\ authenticates (authToken request) secret = true.
Proof.
  intros Hrun Hchanged.
  fetch_cases request env w; injection Hrun as _ <-;
    try (exfalso; apply Hchanged; reflexivity);
    (split; [reflexivity|]); (split; [tauto|]);
    eexists; split; first [reflexivity | eassumption].
Qed.

Lemma bucket_changes_only_when_authenticated_witness :
  method (request_of "DELETE" "/static/a.json" (Some secret_ab) []) = "DELETE"
  /\ authenticates (authToken (request_of "DELETE" "/static/a.json" (Some secret_ab) []))
       secret_ab = true.
Proof.
  destruct (bucket_changes_only_when_authenticated
              (request_of "DELETE" "/static/a.json" (Some secret_ab) [])
              (env_with Undefined (Some secret_ab)) (world_with "a.json" [x01])
              (snd (fetch (request_of "DELETE" "/static/a.json" (Some secret_ab) [])
                      (env_with Undefined (Some secret_ab)) (world_with "a.json" [x01])))
              (fst (fetch (request_of "DELETE" "/static/a.json" (Some secret_ab) [])
                      (env_with Undefined (Some secret_ab)) (world_with "a.json" [x01]))))
    as (_ & _ & secret & Hsecret & Hauth).
  - reflexivity.
  - vm_compute. discriminate.
  - split; [reflexivity|]. injection Hsecret as <-. exact Hauth.
Defined.

(** X6: a request makes at most one call to the bucket, and that call is
    about the request's own key (the path without [/static/]); the calls
    already logged stay in place. *)
Theorem at_most_one_bucket_call (request : Request) (env : Env)
    (w w' : World) (c : Completion Response) :
  fetch request env w = (c, w') ->
  (exists cs : list Call, calls w' = (calls w ++ cs)%list)
  /\ (bucket_calls w w' = []
      \/ exists call : Call,
           bucket_calls w w' = [call]
           /\ call_key call = Some (slice 8 (pathname request))).
Proof.
  intros Hrun.
  fetch_cases request env w; injection Hrun as _ <-;
    (split;
     [ eexists; simpl; first [reflexivity | symmetry; apply app_nil_r]
     | first
         [ solve [left; apply bucket_calls_same]
         | solve [left; rewrite bucket_calls_after; apply auth_calls_no_bucket]
         | solve [right; eexists; split;
                  [ apply bucket_calls_one; [apply auth_calls_no_bucket | reflexivity]
                  | reflexivity ]]
         | solve [right; eexists; split;
                  [ rewrite bucket_calls_after, List.filter_app, auth_calls_no_bucket;
                    reflexivity
                  | reflexivity ]] ] ]).
Qed.

Lemma at_most_one_bucket_call_witness :
  (exists cs : list Call,
     calls (snd (fetch (request_of "GET" "/static/a.json" None [])
                   (env_with Undefined (Some secret_ab)) empty_world))
     = (calls empty_world ++ cs)%list)
  /\ (bucket_calls empty_world
        (snd (fetch (request_of "GET" "/static/a.json" None [])
                (env_with Undefined (Some secret_ab)) empty_world)) = []
      \/ exists call : Call,
           bucket_calls empty_world
             (snd (fetch (request_of "GET" "/static/a.json" None [])
                     (env_with Undefined (Some secret_ab)) empty_world)) = [call]
           /\ call_key call = Some "a.json").
Proof.
  apply (at_most_one_bucket_call
           (request_of "GET" "/static/a.json" None [])
           (env_with Undefined (Some secret_ab)) empty_world _
           (fst (fetch (request_of "GET" "/static/a.json" None [])
                   (env_with Undefined (Some secret_ab)) empty_world))).
  reflexivity.
Defined.



(** X8: a write touches only its own key. Whatever a request does, every key
    other than the request's own key holds after the run what it held
    before. *)
Theorem other_keys_are_untouched (request : Request) (env : Env) (w w' : World)
    (c : Completion Response) (k : string) :
  fetch request env w = (c, w') ->
  k <> slice 8 (pathname request) ->
  bucket w' !! k = bucket w !! k.
Proof.
  intros Hrun Hk.
  fetch_cases request env w; injection Hrun as _ <-; simpl; try reflexivity.
  - now apply lookup_insert_ne.
  - now apply lookup_delete_ne.
Qed.

Lemma other_keys_are_untouched_witness :
  bucket (snd (fetch (request_of "DELETE" "/static/b.json" (Some secret_ab) [])
                 (env_with Undefined (Some secret_ab)) (world_with "a.json" [x01])))
    !! "a.json"
  = bucket (world_with "a.json" [x01]) !! "a.json".
Proof.
  apply (other_keys_are_untouched
           (request_of "DELETE" "/static/b.json" (Some secret_ab) [])
           (env_with Undefined (Some secret_ab)) (world_with "a.json" [x01]) _
           (fst (fetch (request_of "DELETE" "/static/b.json" (Some secret_ab) [])
                   (env_with Undefined (Some secret_ab)) (world_with "a.json" [x01])))).
  - reflexivity.
  - discriminate.
Defined.



(** X10: the last write wins. Two authenticated [PUT]s of the same path, one
    after the other, leave the bucket as the second alone would have. *)
Theorem last_put_wins (first second : Request) (env : Env) (w : World)
    (secret : ustring) :
  AUTH_KEY_SECRET env = Some secret ->
  startsWith (pathname first) "/static/" = true ->
  pathname second = pathname first ->
  method first = "PUT" ->
  method second = "PUT" ->
  authenticates (authToken first) secret = true ->
  authenticates (authToken second) secret = true ->
  bucket (snd (fetch second env (snd (fetch first env w))))
  = bucket (snd (fetch second env w)).
Proof.
  intros Hsecret Hpath1 Hsame Hm1 Hm2 Ha1 Ha2.
  assert (startsWith (pathname second) "/static/" = true) as Hpath2
    by now rewrite Hsame.
  rewrite (fetch_put _ _ _ _ Hpath1 Hsecret Hm1 Ha1).
  rewrite !(fetch_put _ _ _ _ Hpath2 Hsecret Hm2 Ha2). simpl.
  rewrite Hsame. apply insert_insert_eq.
Qed.

Lemma last_put_wins_witness :
  bucket (snd (fetch (request_of "PUT" "/static/a.json" (Some secret_ab) [x02])
                 (env_with Undefined (Some secret_ab))
                 (snd (fetch (request_of "PUT" "/static/a.json" (Some secret_ab) [x01])
                         (env_with Undefined (Some secret_ab)) empty_world))))
  = bucket (snd (fetch (request_of "PUT" "/static/a.json" (Some secret_ab) [x02])
                   (env_with Undefined (Some secret_ab)) empty_world)).
Proof.
  apply (last_put_wins
           (request_of "PUT" "/static/a.json" (Some secret_ab) [x01])
           (request_of "PUT" "/static/a.json" (Some secret_ab) [x02])
           (env_with Undefined (Some secret_ab)) empty_world secret_ab);
    reflexivity.
Defined.

(** X11: what a [PUT] stores comes back with its type and tag. After an
    authenticated [PUT] of a key that ends with [.json] or [.jsonStream], a
    [GET] of the same path is answered with 200, the bytes that were put, the
    entity tag the store derived from them, and the content type chosen from
    the suffix at the [PUT]. *)
Theorem put_then_get_serves_type_and_tag (put get : Request) (env : Env) (w : World)
    (secret : ustring) (key : string) :
  AUTH_KEY_SECRET env = Some secret ->
  pathname put = "/static/" +:+ key ->
  pathname get = "/static/" +:+ key ->
  method put = "PUT" ->
  method get = "GET" ->
  authenticates (authToken put) secret = true ->
  endsWith key ".json" = true \/ endsWith key ".jsonStream" = true ->
  exists (r : Response) (w' : World),
    fetch get env (snd (fetch put env w)) = (Normal r, w')
    /\ status r = 200
    /\ response_body r = BodyStream (request_body put)
    /\ Headers_get "etag" (response_headers r)
       = Some (etag_of (LIVETIMING_BUCKET env) (request_body put))
    /\ Headers_get "Content-Type" (response_headers r)
       = Some (if endsWith key ".json" then "application/json"
               else "application/octet-stream").
Proof.
  intros Hsecret Hp1 Hp2 Hm1 Hm2 Hauth Hsuffix.
  assert (forall request, pathname request = "/static/" +:+ key ->
            startsWith (pathname request) "/static/" = true
            /\ slice 8 (pathname request) = key) as Hpath.
  { intros request ->. split; [apply startsWith_static | apply slice_static]. }
  destruct (Hpath _ Hp1) as [Hs1 Hk1], (Hpath _ Hp2) as [Hs2 Hk2].
  assert (key <> "") as Hkey.
  { intros ->. destruct Hsuffix; discriminate. }
  assert (contentTypeValue key
          = if endsWith key ".json" then "application/json"
            else "application/octet-stream") as Htype.
  { destruct (endsWith key ".json") eqn:Hjson.
    - now apply StoreClaims.contentTypeValue_json.
    - destruct Hsuffix as [|Hstream]; [discriminate|].
      now apply StoreClaims.contentTypeValue_jsonStream. }
  rewrite (fetch_put _ _ _ _ Hs1 Hsecret Hm1 Hauth).
  rewrite (fetch_get_object _ _ _ _ Hs2 Hsecret Hm2) by now rewrite Hk2.
  simpl. rewrite Hk1, Hk2, lookup_insert_eq.
  eexists _, _. split; [reflexivity|]. simpl.
  split; [reflexivity|]. split; [reflexivity|]. split.
  - unfold Headers_get, Headers_set.
    rewrite lookup_insert_ne by discriminate. apply lookup_insert_eq.
  - rewrite <- Htype. unfold Headers_get, Headers_set.
    rewrite !lookup_insert_ne by discriminate. reflexivity.
Qed.

Lemma put_then_get_serves_type_and_tag_witness :
  exists (r : Response) (w' : World),
    fetch (request_of "GET" "/static/a.jsonStream" None [])
      (env_with Undefined (Some secret_ab))
      (snd (fetch (request_of "PUT" "/static/a.jsonStream" (Some secret_ab) [x01])
              (env_with Undefined (Some secret_ab)) empty_world))
    = (Normal r, w')
    /\ status r = 200
    /\ response_body r = BodyStream [x01]
    /\ Headers_get "etag" (response_headers r) = Some "etag-0"
    /\ Headers_get "Content-Type" (response_headers r) = Some "application/octet-stream".
Proof.
  apply (put_then_get_serves_type_and_tag
           (request_of "PUT" "/static/a.jsonStream" (Some secret_ab) [x01])
           (request_of "GET" "/static/a.jsonStream" None [])
           (env_with Undefined (Some secret_ab)) empty_world secret_ab "a.jsonStream");
    first [reflexivity | right; reflexivity].
Defined.

(** X12: the credential matters only for [PUT] and [DELETE]. Two requests
    with the same path and the same method, other than [PUT] and [DELETE],
    get the same outcome and leave the same bucket whatever headers and body
    each carries, under any configuration. *)
Theorem credential_matters_only_for_writes (r1 r2 : Request) (env : Env) (w : World) :
  method r1 = method r2 ->
  pathname r1 = pathname r2 ->
  method r1 <> "PUT" ->
  method r1 <> "DELETE" ->
  fst (fetch r1 env w) = fst (fetch r2 env w)
  /\ bucket (snd (fetch r1 env w)) = bucket (snd (fetch r2 env w)).
Proof.
  intros Hmethod Hpathname Hput Hdelete.
  fetch_cases r1 env w; fetch_cases r2 env w; simpl;
    rewrite ?Hpathname in *;
    repeat match goal with
           | H : includes supportedMethods _ = false |- _ =>
               apply unsupported_method in H; destruct H as (? & ? & ?)
           end;
    first [congruence | split; congruence].
Qed.

Lemma credential_matters_only_for_writes_witness :
  fst (fetch (request_of "GET" "/static/a.json" (Some token_e_acute) [x02])
         (env_with Undefined (Some secret_ab)) (world_with "a.json" [x01]))
  = fst (fetch (request_of "GET" "/static/a.json" None [])
           (env_with Undefined (Some secret_ab)) (world_with "a.json" [x01])).
Proof.
  apply (credential_matters_only_for_writes
           (request_of "GET" "/static/a.json" (Some token_e_acute) [x02])
           (request_of "GET" "/static/a.json" None [])
           (env_with Undefined (Some secret_ab)) (world_with "a.json" [x01]));
    first [reflexivity | discriminate].
Defined.

(** X13: nothing of the path is lost in the key. A path the handler accepts
    is [/static/] followed by the key it extracts, so two accepted paths with
    the same key are the same path. *)
Theorem accepted_path_is_prefix_and_key (path : string) :
  startsWith path "/static/" = true ->
  path = "/static/" +:+ slice 8 path
  /\ forall path' : string,
       startsWith path' "/static/" = true -> slice 8 path' = slice 8 path -> path' = path.
Proof.
  assert (forall p : string,
            startsWith p "/static/" = true -> p = "/static/" +:+ slice 8 p) as Hsplit.
  { intros p H. unfold startsWith in H. apply String.prefix_correct in H.
    do 8 (destruct p as [|c p]; [discriminate H|];
          simpl in H; injection H as Hc H; subst c).
    change (String "/" (String "s" (String "t" (String "a" (String "t"
              (String "i" (String "c" (String "/" p))))))))
      with ("/static/" +:+ p).
    now rewrite slice_static. }
  intros H. split; [now apply Hsplit|].
  intros path' H' Hkey.
  rewrite (Hsplit path H), (Hsplit path' H'), Hkey.
  reflexivity.
Qed.

Lemma accepted_path_is_prefix_and_key_witness :
  "/static/a/b.json" = "/static/" +:+ slice 8 "/static/a/b.json".
Proof.
  exact (proj1 (accepted_path_is_prefix_and_key "/static/a/b.json" eq_refl)).
Defined.

(** X14: a [MAX_CACHE_AGE] configured as a string of digits is sent as
    written. With the secret configured, a [GET] of a stored object carries
    "public, max-age=" followed by the configured non-empty string of decimal
    digits; so the string "0" gives "public, max-age=0", which the number 0
    does not. *)
Theorem digit_string_max_age_is_sent_as_written (request : Request) (env : Env)
    (w : World) (secret : ustring) (object : R2Object) (text : string) :
  startsWith (pathname request) "/static/" = true ->
  method request = "GET" ->
  AUTH_KEY_SECRET env = Some secret ->
  slice 8 (pathname request) <> "" ->
  bucket w !! slice 8 (pathname request) = Some object ->
  MAX_CACHE_AGE env = Str text ->
  text <> "" ->
  all_digits text = true ->
  exists (r : Response) (w' : World),
    fetch request env w = (Normal r, w')
    /\ status r = 200
    /\ Headers_get "Cache-Control" (response_headers r)
       = Some ("public, max-age=" +:+ text).
Proof.
  intros Hpath Hm Hsecret Hkey Hobject Hage Htext _.
  eexists _, _. split.
  - rewrite (fetch_get_object _ _ _ _ Hpath Hsecret Hm Hkey), Hobject. reflexivity.
  - split; [reflexivity|]. simpl.
    unfold Headers_get, Headers_set. simpl. rewrite lookup_insert_eq.
    rewrite Hage. unfold or_else, JS.concat. simpl.
    destruct (String.eqb_spec text ""); [contradiction | reflexivity].
Qed.

Lemma digit_string_max_age_is_sent_as_written_witness :
  exists (r : Response) (w' : World),
    fetch (request_of "GET" "/static/a.json" None [])
      (env_with (Str "0") (Some secret_ab)) (world_with "a.json" [x01]) = (Normal r, w')
    /\ status r = 200
    /\ Headers_get "Cache-Control" (response_headers r) = Some "public, max-age=0".
Proof.
  apply (digit_string_max_age_is_sent_as_written
           (request_of "GET" "/static/a.json" None [])
           (env_with (Str "0") (Some secret_ab)) (world_with "a.json" [x01])
           secret_ab (stored [x01]) "0");
    first [reflexivity | discriminate].
Defined.

(** X15: 401 and 405 are answered for no other reason. A response has status
    401 exactly when the path is under [/static/], the method is [PUT] or
    [DELETE] and the credential failed the check against the configured
    secret; it has status 405 exactly when the path is under [/static/] and
    the method is none of [GET], [PUT], [DELETE]. *)
Theorem statuses_401_and_405_characterised (request : Request) (env : Env)
    (w w' : World) (r : Response) :
  fetch request env w = (Normal r, w') ->
  (status r = 401
   <-> startsWith (pathname request) "/static/" = true
       /\ (method request = "PUT" \/ method request = "DELETE")
       /\ exists secret : ustring,
            AUTH_KEY_SECRET env = Some secret
            /\ authenticates (authToken request) secret = false)
  /\ (status r = 405
      <-> startsWith (pathname request) "/static/" = true
          /\ includes supportedMethods (method request) = false).
Proof.
  intros Hrun.
  fetch_cases request env w; try discriminate Hrun; injection Hrun as <- _;
    simpl status; try rewrite Hm;
    split;
    (split; [intros Hs; try discriminate Hs | intros H]);
    try reflexivity;
    try (destruct H as (? & [?|?] & ? & ? & ?); congruence);
    try (destruct H as (? & ?); congruence);
    try match type of H with
        | _ /\ includes supportedMethods _ = false =>
            destruct H as [_ H]; unfold includes in H; simpl in H; discriminate H
        end;
    try (split; [reflexivity|]; split; [tauto|];
         eexists; split; [reflexivity | assumption]);
    try (split; reflexivity).
  apply unsupported_method in Hm as (_ & Hput & Hdelete).
  destruct H as (_ & [Hmethod | Hmethod] & _); contradiction.
Qed.

Lemma statuses_401_and_405_characterised_witness :
  status (new_Response (BodyString "Unauthorized") 401 ∅) = 401
  <-> startsWith (pathname (request_of "PUT" "/static/a.json" None [])) "/static/" = true
      /\ (method (request_of "PUT" "/static/a.json" None []) = "PUT"
          \/ method (request_of "PUT" "/static/a.json" None []) = "DELETE")
      /\ exists secret : ustring,
           AUTH_KEY_SECRET (env_with Undefined (Some secret_ab)) = Some secret
           /\ authenticates (authToken (request_of "PUT" "/static/a.json" None [])) secret
              = false.
Proof.
  apply (statuses_401_and_405_characterised
           (request_of "PUT" "/static/a.json" None [])
           (env_with Undefined (Some secret_ab)) empty_world empty_world
           (new_Response (BodyString "Unauthorized") 401 ∅)).
  reflexivity.
Defined.

End HandlerExtras.
